(** * The LBA directory of the log-structured serializer

    A shallow embedding of [src/serializer/log/lba/lba_list.cc]: the
    [lba_list_t] object, the three callback-driven state machines
    ([lba_start_fsm_t], [lba_syncer_t], [gc_fsm_t]) and the event loop that
    later delivers the callbacks they wait for.

    The code is single threaded; every method is a function from the state of
    the directory to an outcome, written in a small state-and-error monad. *)

From stdpp Require Import base option list gmap.
From Stdlib Require Import ZArith Lia.

Local Open Scope Z_scope.
Local Open Scope nat_scope.

(** ** Data *)

(** Block ids index the offset table, so they are modelled as [nat];
    offsets are the signed 64-bit [off64_t]. *)
Abbreviation block_id_t := nat (only parsing).
Abbreviation off64_t := Z (only parsing).
Abbreviation fd_t := Z (only parsing).

(** Modelled from the spec: the constant [DELETE_BLOCK] (declared in a header
    that is not part of the file): the tombstone, "a distinguished sentinel
    value ... distinct from any valid offset".  Valid offsets are file
    positions, hence non-negative. *)
Definition DELETE_BLOCK : off64_t := (-1)%Z.

(** An entry of the on-disk log. *)
Abbreviation lba_entry_t := (block_id_t * off64_t)%type (only parsing).

(** [lba_list_t::state] *)
Inductive state_t :=
| state_unstarted
| state_starting_up
| state_ready
| state_shut_down.

#[global] Instance state_t_eq_dec : EqDecision state_t.
Proof. solve_decision. Defined.

(** [a == b] on states *)
Definition state_eqb (a b : state_t) : bool :=
  match a, b with
  | state_unstarted, state_unstarted => true
  | state_starting_up, state_starting_up => true
  | state_ready, state_ready => true
  | state_shut_down, state_shut_down => true
  | _, _ => false
  end.

(** The caller's callback objects ([sync_callback_t *], [ready_callback_t *])
    are pointers: [None] is [NULL], [Some c] is the object called [c]. *)
Abbreviation sync_callback_t := nat (only parsing).
Abbreviation ready_callback_t := nat (only parsing).

(** ** The offset table, [in_memory_index_t] *)

(** Modelled from the spec: the class [in_memory_index_t] (its source file is
    not part of this unit).  "Authoritative in-memory mapping from block id
    to offset; generates fresh block ids; tracks the maximum assigned id."
    The table is the dense array of the offsets of the ids [0 .. max), a
    tombstone standing for an id that is deleted or not written yet. *)
Module in_memory_index_t.

(** [set(id, offset)]: the table grows to hold [id] when needed. *)
Definition set_block_offset (t : list off64_t) (b : block_id_t) (o : off64_t)
    : list off64_t :=
    <[b := o]> (t ++ replicate (S b - length t) DELETE_BLOCK).

(** [delete(id)] leaves the tombstone. *)
Definition delete_block (t : list off64_t) (b : block_id_t) : list off64_t :=
    set_block_offset t b DELETE_BLOCK.

(** [get(id) -> offset-or-tombstone] *)
Definition get_block_offset (t : list off64_t) (b : block_id_t) : off64_t :=
    default DELETE_BLOCK (t !! b).

(** [max_id()]: every existing id is below it. *)
Definition max_block_id (t : list off64_t) : block_id_t := length t.

(** [generate_id()]: a fresh id, not written yet. *)
Definition gen_block_id (t : list off64_t) : block_id_t * list off64_t :=
    (length t, t ++ [DELETE_BLOCK]).

(** [new(empty)] *)
Definition create : list off64_t := [].

(** [new(from loaded log)]: replay, later entries superseding earlier
      ones. *)
Definition replay (es : list lba_entry_t) : list off64_t :=
    foldl (λ t e, set_block_offset t e.1 e.2) [] es.

End in_memory_index_t.

(** ** The durable log, [lba_disk_structure_t] *)

(** Who waits for a flush ([lba_disk_structure_t::sync_callback_t]): a
    [lba_syncer_t] object or a [gc_fsm_t]. *)
Inductive sync_client :=
| cl_syncer (s : nat)
| cl_gc.

#[global] Instance sync_client_eq_dec : EqDecision sync_client.
Proof. solve_decision. Defined.

(** Modelled from the spec: the class [lba_disk_structure_t], one generation
    of the on-disk log.  It supports "appending entries, asynchronous flush,
    producing a durable anchor, and asynchronous destruction/shutdown".
    [ds_entries] are the entries appended so far, oldest first; the first
    [ds_flushed] of them are on durable storage; [ds_pending] are the flushes
    in flight, each with the number of entries it covers and the object to
    call back. *)
Record lba_disk_structure_t := mk_ds {
  ds_gen : nat;
  ds_entries : list lba_entry_t;
  ds_flushed : nat;
  ds_pending : list (nat * sync_client)
}.

(** Modelled from the spec: [metablock_mixin_t], the anchor: what recovery
    can read back, the durable part of the log it points to. *)
Record metablock_mixin_t := mk_mb { mb_log : list lba_entry_t }.

Definition ds_empty (g : nat) : lba_disk_structure_t := mk_ds g [] 0 [].

Definition ds_loaded (g : nat) (mb : metablock_mixin_t) : lba_disk_structure_t :=
  mk_ds g (mb_log mb) (length (mb_log mb)) [].

Definition ds_durable (d : lba_disk_structure_t) : list lba_entry_t :=
  take (ds_flushed d) (ds_entries d).

(** ** The sequencing lock, [rwi_lock_t] *)

Inductive access_t := rwi_read | rwi_write.

#[global] Instance access_t_eq_dec : EqDecision access_t.
Proof. solve_decision. Defined.

(** Who waits for the lock ([lock_available_callback_t]). *)
Inductive lock_client :=
| lc_syncer (s : nat)
| lc_gc.

#[global] Instance lock_client_eq_dec : EqDecision lock_client.
Proof. solve_decision. Defined.

(** Modelled from the spec: the class [rwi_lock_t], "a single reader/writer
    lock, asynchronous-acquire": [acquire(mode, completion) -> bool] grants
    at once or defers "via a lock-available callback"; read mode is shared,
    write mode exclusive.  Waiters are served first come first served, and a
    request never overtakes a waiter.  A waiter that [release] serves holds
    the lock from then on; its callback is in [lk_granted] until the event
    loop delivers it ("later invokes exactly one callback"). *)
Record rwi_lock_t := mk_lock {
  lk_readers : nat;
  lk_writer : bool;
  lk_queue : list (access_t * option lock_client);
  lk_granted : list (option lock_client)
}.

Module rwi_lock_t.

Definition unlocked : rwi_lock_t := mk_lock 0 false [] [].

Definition compatible (a : access_t) (l : rwi_lock_t) : bool :=
    match a with
    | rwi_read => negb (lk_writer l)
    | rwi_write => negb (lk_writer l) && (lk_readers l =? 0)
    end.

Definition take (a : access_t) (l : rwi_lock_t) : rwi_lock_t :=
    match a with
    | rwi_read => mk_lock (S (lk_readers l)) (lk_writer l) (lk_queue l) (lk_granted l)
    | rwi_write => mk_lock (lk_readers l) true (lk_queue l) (lk_granted l)
    end.

(** [acquire]: [true] when granted at once. *)
Definition lock (a : access_t) (cb : option lock_client) (l : rwi_lock_t)
    : bool * rwi_lock_t :=
    if compatible a l && (length (lk_queue l) =? 0)
    then (true, take a l)
    else (false, mk_lock (lk_readers l) (lk_writer l) (lk_queue l ++ [(a, cb)])
                         (lk_granted l)).

(** Serve the waiters at the head of the queue for as long as the lock
      admits them. *)
Fixpoint serve (q : list (access_t * option lock_client)) (l : rwi_lock_t)
    : rwi_lock_t :=
    match q with
    | [] => mk_lock (lk_readers l) (lk_writer l) [] (lk_granted l)
    | (a, cb) :: q' =>
        if compatible a l
        then serve q' (let l' := take a l in
                       mk_lock (lk_readers l') (lk_writer l') q'
                               (lk_granted l' ++ [cb]))
        else mk_lock (lk_readers l) (lk_writer l) q (lk_granted l)
    end.

(** [release]; [None] when nobody holds the lock. *)
Definition unlock (l : rwi_lock_t) : option rwi_lock_t :=
    if lk_writer l
    then Some (serve (lk_queue l)
                 (mk_lock (lk_readers l) false (lk_queue l) (lk_granted l)))
    else match lk_readers l with
         | 0 => None
         | S n => Some (serve (lk_queue l)
                          (mk_lock n false (lk_queue l) (lk_granted l)))
         end.

End rwi_lock_t.

(** ** The state of the program *)

(** [lba_start_fsm_t]: its [state] field, and its [callback]. *)
Inductive start_fsm_state := state_start | state_loading_lba | state_done.

#[global] Instance start_fsm_state_eq_dec : EqDecision start_fsm_state.
Proof. solve_decision. Defined.

Definition start_fsm_state_eqb (a b : start_fsm_state) : bool :=
  match a, b with
  | state_start, state_start => true
  | state_loading_lba, state_loading_lba => true
  | state_done, state_done => true
  | _, _ => false
  end.

Record lba_start_fsm_t := mk_start_fsm {
  fsm_state : start_fsm_state;
  fsm_callback : option ready_callback_t
}.

(** What the code calls on its collaborators and on its caller, in the order
    in which it does.  The history is never read by the code. *)
Inductive call :=
| IndexCreate
| IndexLoad
| IndexGen (b : block_id_t)
| IndexSet (b : block_id_t) (o : off64_t)
| IndexDelete (b : block_id_t)
| IndexRelease
| DsCreate (g : nat)
| DsLoad (done : bool)
| DsAddEntry (g : nat) (b : block_id_t) (o : off64_t)
| DsSync (g : nat) (c : sync_client) (done : bool)
| DsPrepareMetablock (g : nat)
| DsDestroy (g : nat)
| DsShutdown (g : nat)
| LockAcquire (a : access_t) (granted : bool)
| LockRelease
| OnLbaSync (cb : sync_callback_t)
| OnLbaReady (cb : ready_callback_t).

#[global] Instance call_eq_dec : EqDecision call.
Proof. solve_decision. Defined.

(** The fields of [lba_list_t] ([state] to [disk_structure_lock]), the state
    machine objects allocated with [new] and not yet deleted, what the
    collaborators have in flight, and the history of calls. *)
Record world := mk_world {
  state : state_t;
  dbfd : fd_t;
  in_memory_index : option (list off64_t);
  disk_structure : option lba_disk_structure_t;
  disk_structure_lock : rwi_lock_t;
  syncers : gmap nat (option sync_callback_t);
  starters : gmap nat lba_start_fsm_t;
  next_fsm : nat;
  next_gen : nat;
  loading : option (metablock_mixin_t * nat);
  calls : list call
}.

(** How a call can go wrong. *)
Inductive failure :=
| AssertionFailure      (* an [assert] fails: the process is aborted *)
| NullDereference       (* a member is accessed through a [NULL] pointer *)
| UseAfterFree          (* a state machine object is used after [delete] *)
| NotEnabled            (* an event that is not pending is asked for *)
| OutOfFuel.            (* a loop is cut short by its bound *)

(** How a call ends: it returns, or the run stops there. *)
Inductive outcome (A : Type) :=
| Done (a : A)
| Abort (e : failure).
Arguments Done {A} a.
Arguments Abort {A} e.

Definition M (A : Type) : Type := world → outcome (A * world).

#[global] Instance M_ret : MRet M := λ A a w, Done (a, w).
#[global] Instance M_bind : MBind M := λ A B f m w,
  match m w with
  | Done (a, w') => f a w'
  | Abort e => Abort e
  end.

Definition gets {A} (f : world → A) : M A := λ w, Done (f w, w).
Definition modify (f : world → world) : M unit := λ w, Done (tt, f w).
Definition abort {A} (e : failure) : M A := λ _, Abort e.

(** [assert(b)] *)
Definition assertion (b : bool) : M unit :=
  if b then mret tt else abort AssertionFailure.

(** Field updates. *)
Definition set_state (s : state_t) (w : world) : world :=
  mk_world s (dbfd w) (in_memory_index w) (disk_structure w)
    (disk_structure_lock w) (syncers w) (starters w) (next_fsm w) (next_gen w)
    (loading w) (calls w).
Definition set_dbfd (fd : fd_t) (w : world) : world :=
  mk_world (state w) fd (in_memory_index w) (disk_structure w)
    (disk_structure_lock w) (syncers w) (starters w) (next_fsm w) (next_gen w)
    (loading w) (calls w).
Definition set_in_memory_index (t : option (list off64_t)) (w : world) : world :=
  mk_world (state w) (dbfd w) t (disk_structure w)
    (disk_structure_lock w) (syncers w) (starters w) (next_fsm w) (next_gen w)
    (loading w) (calls w).
Definition set_disk_structure (d : option lba_disk_structure_t) (w : world) : world :=
  mk_world (state w) (dbfd w) (in_memory_index w) d
    (disk_structure_lock w) (syncers w) (starters w) (next_fsm w) (next_gen w)
    (loading w) (calls w).
Definition set_disk_structure_lock (l : rwi_lock_t) (w : world) : world :=
  mk_world (state w) (dbfd w) (in_memory_index w) (disk_structure w)
    l (syncers w) (starters w) (next_fsm w) (next_gen w)
    (loading w) (calls w).
Definition set_syncers (m : gmap nat (option sync_callback_t)) (w : world) : world :=
  mk_world (state w) (dbfd w) (in_memory_index w) (disk_structure w)
    (disk_structure_lock w) m (starters w) (next_fsm w) (next_gen w)
    (loading w) (calls w).
Definition set_starters (m : gmap nat lba_start_fsm_t) (w : world) : world :=
  mk_world (state w) (dbfd w) (in_memory_index w) (disk_structure w)
    (disk_structure_lock w) (syncers w) m (next_fsm w) (next_gen w)
    (loading w) (calls w).
Definition set_next_fsm (n : nat) (w : world) : world :=
  mk_world (state w) (dbfd w) (in_memory_index w) (disk_structure w)
    (disk_structure_lock w) (syncers w) (starters w) n (next_gen w)
    (loading w) (calls w).
Definition set_next_gen (n : nat) (w : world) : world :=
  mk_world (state w) (dbfd w) (in_memory_index w) (disk_structure w)
    (disk_structure_lock w) (syncers w) (starters w) (next_fsm w) n
    (loading w) (calls w).
Definition set_loading (l : option (metablock_mixin_t * nat)) (w : world) : world :=
  mk_world (state w) (dbfd w) (in_memory_index w) (disk_structure w)
    (disk_structure_lock w) (syncers w) (starters w) (next_fsm w) (next_gen w)
    l (calls w).
Definition record (c : call) (w : world) : world :=
  mk_world (state w) (dbfd w) (in_memory_index w) (disk_structure w)
    (disk_structure_lock w) (syncers w) (starters w) (next_fsm w) (next_gen w)
    (loading w) (calls w ++ [c]).

Definition log (c : call) : M unit := modify (record c).

(** ** The collaborators as the code calls them *)

(** [in_memory_index->...]: the pointer is dereferenced. *)
Definition with_index {A} (f : list off64_t → M A) : M A :=
  t ← gets in_memory_index;
  match t with
  | None => abort NullDereference
  | Some t => f t
  end.

(** [disk_structure->...] *)
Definition with_ds {A} (f : lba_disk_structure_t → M A) : M A :=
  d ← gets disk_structure;
  match d with
  | None => abort NullDereference
  | Some d => f d
  end.

(** [lba_disk_structure_t::create(em, fd, &disk_structure)]: synchronous. *)
Definition ds_create : M unit :=
  g ← gets next_gen;
  modify (set_next_gen (S g));;
  modify (set_disk_structure (Some (ds_empty g)));;
  log (DsCreate g).

(** [lba_disk_structure_t::load(em, fd, mb, &disk_structure, cb)]: [io] tells
    whether the load completes before the call returns. *)
Definition ds_load (mb : metablock_mixin_t) (starter : nat) (io : bool) : M bool :=
  log (DsLoad io);;
  if io then
    g ← gets next_gen;
    modify (set_next_gen (S g));;
    modify (set_disk_structure (Some (ds_loaded g mb)));;
    mret true
  else
    modify (set_loading (Some (mb, starter)));;
    mret false.

(** [disk_structure->add_entry(block, offset)]: buffered append. *)
Definition ds_add_entry (b : block_id_t) (o : off64_t) : M unit :=
  with_ds (λ d,
    modify (set_disk_structure
              (Some (mk_ds (ds_gen d) (ds_entries d ++ [(b, o)]) (ds_flushed d)
                           (ds_pending d))));;
    log (DsAddEntry (ds_gen d) b o)).

(** [disk_structure->sync(cb)]: [io] tells whether the flush completes before
    the call returns; otherwise the callback is kept for later. *)
Definition ds_sync (c : sync_client) (io : bool) : M bool :=
  with_ds (λ d,
    log (DsSync (ds_gen d) c io);;
    if io then
      modify (set_disk_structure
                (Some (mk_ds (ds_gen d) (ds_entries d) (length (ds_entries d))
                             (ds_pending d))));;
      mret true
    else
      modify (set_disk_structure
                (Some (mk_ds (ds_gen d) (ds_entries d) (ds_flushed d)
                             (ds_pending d ++ [(length (ds_entries d), c)]))));;
      mret false).

(** [disk_structure->prepare_metablock(mb_out)] *)
Definition ds_prepare_metablock : M metablock_mixin_t :=
  with_ds (λ d,
    log (DsPrepareMetablock (ds_gen d));;
    mret (mk_mb (ds_durable d))).

(** [disk_structure->destroy()]: fire and forget. *)
Definition ds_destroy : M unit :=
  with_ds (λ d, log (DsDestroy (ds_gen d))).

(** [disk_structure->shutdown()]: flush and release. *)
Definition ds_shutdown : M unit :=
  with_ds (λ d, log (DsShutdown (ds_gen d))).

(** [disk_structure_lock.lock(a, cb)] *)
Definition lock_lock (a : access_t) (cb : option lock_client) : M bool :=
  l ← gets disk_structure_lock;
  let r := rwi_lock_t.lock a cb l in
  modify (set_disk_structure_lock r.2);;
  log (LockAcquire a r.1);;
  mret r.1.

(** [disk_structure_lock.unlock()] *)
Definition lock_unlock : M unit :=
  l ← gets disk_structure_lock;
  match rwi_lock_t.unlock l with
  | None => abort AssertionFailure
  | Some l' => modify (set_disk_structure_lock l');; log LockRelease
  end.

(** ** [lba_list_t] *)

(** [lba_list_t::lba_list_t(em)]: the object as the constructor leaves it. *)
Definition lba_list_t_new : world :=
  mk_world state_unstarted 0%Z None None rwi_lock_t.unlocked ∅ ∅ 0 0 None [].

(** [assert(state == s)] *)
Definition assert_state (s : state_t) : M unit :=
  st ← gets state;
  assertion (state_eqb st s).

(** [void lba_list_t::start(fd_t fd)], for a new database. *)
Definition start (fd : fd_t) : M unit :=
  assert_state state_unstarted;;
  modify (set_dbfd fd);;
  modify (set_in_memory_index (Some in_memory_index_t.create));;
  log IndexCreate;;
  ds_create;;
  modify (set_state state_ready).

Module lba_start_fsm_t.

(** [new lba_start_fsm_t(l)]: [state(state_start)]. *)
Definition create : M nat :=
  n ← gets next_fsm;
  modify (set_next_fsm (S n));;
  modify (λ w, set_starters (<[n := mk_start_fsm state_start None]> (starters w)) w);;
  mret n.

Definition this (s : nat) : M lba_start_fsm_t :=
  m ← gets starters;
  match m !! s with
  | None => abort UseAfterFree
  | Some o => mret o
  end.

Definition set_callback (s : nat) (cb : option ready_callback_t) : M unit :=
  o ← this s;
  modify (λ w, set_starters (<[s := mk_start_fsm (fsm_state o) cb]> (starters w)) w).

(** [delete this], which runs [~lba_start_fsm_t()]. *)
Definition destroy (s : nat) : M unit :=
  o ← this s;
  assertion (start_fsm_state_eqb (fsm_state o) state_start
             || start_fsm_state_eqb (fsm_state o) state_done);;
  modify (λ w, set_starters (delete s (starters w)) w).

Definition finish (s : nat) : M unit :=
  d ← with_ds mret;
  modify (set_in_memory_index (Some (in_memory_index_t.replay (ds_entries d))));;
  log IndexLoad;;
  modify (set_state state_ready);;
  o ← this s;
  match fsm_callback o with
  | Some cb => log (OnLbaReady cb)
  | None => mret tt
  end;;
  destroy s.

Definition run (s : nat) (last_metablock : metablock_mixin_t)
    (cb : option ready_callback_t) (io : bool) : M bool :=
  o ← this s;
  assertion (start_fsm_state_eqb (fsm_state o) state_start);;
  assert_state state_unstarted;;
  modify (set_state state_starting_up);;
  done ← ds_load last_metablock s io;
  if done : bool then
    set_callback s None;;
    finish s;;
    mret true
  else
    set_callback s cb;;
    mret false.

Definition on_load_lba (s : nat) : M unit := finish s.

End lba_start_fsm_t.

(** [bool lba_list_t::start(fd, last_metablock, cb)], for an existing
    database. *)
Definition start_existing (fd : fd_t) (last_metablock : metablock_mixin_t)
    (cb : option ready_callback_t) (io : bool) : M bool :=
  assert_state state_unstarted;;
  modify (set_dbfd fd);;
  starter ← lba_start_fsm_t.create;
  lba_start_fsm_t.run starter last_metablock cb io.

Definition gen_block_id : M block_id_t :=
  assert_state state_ready;;
  with_index (λ t,
    let r := in_memory_index_t.gen_block_id t in
    modify (set_in_memory_index (Some r.2));;
    log (IndexGen r.1);;
    mret r.1).

Definition max_block_id : M block_id_t :=
  assert_state state_ready;;
  with_index (λ t, mret (in_memory_index_t.max_block_id t)).

Definition get_block_offset (block : block_id_t) : M off64_t :=
  assert_state state_ready;;
  with_index (λ t, mret (in_memory_index_t.get_block_offset t block)).

Definition set_block_offset (block : block_id_t) (offset : off64_t) : M unit :=
  assert_state state_ready;;
  with_index (λ t,
    modify (set_in_memory_index
              (Some (in_memory_index_t.set_block_offset t block offset)));;
    log (IndexSet block offset));;
  ds_add_entry block offset.

Definition delete_block (block : block_id_t) : M unit :=
  assert_state state_ready;;
  with_index (λ t,
    modify (set_in_memory_index (Some (in_memory_index_t.delete_block t block)));;
    log (IndexDelete block));;
  ds_add_entry block DELETE_BLOCK.

Module gc_fsm_t.

(** [gc_fsm_t] has no field besides [owner]; [delete this] leaves nothing
    behind. *)
Definition do_cleanup : M unit := lock_unlock.

(** The loop [for (id = 0; id < owner->max_block_id(); id++)], from [id] on;
    the bound is read again at every turn, [n] bounds the number of turns. *)
Fixpoint copy_entries (n : nat) (id : block_id_t) : M unit :=
  m ← max_block_id;
  if id <? m then
    match n with
    | 0 => abort OutOfFuel
    | S n' =>
        o ← get_block_offset id;
        ds_add_entry id o;;
        copy_entries n' (S id)
    end
  else mret tt.

Definition do_replace_disk_structure (io : bool) : M unit :=
  (* Replace the LBA with a new empty LBA *)
  ds_destroy;;
  ds_create;;
  (* Put entries in the new empty LBA *)
  n ← gets (λ w, from_option length 0 (in_memory_index w));
  copy_entries n 0;;
  (* Downgrade the lock from a write lock to a read lock *)
  lock_unlock;;
  ok ← lock_lock rwi_read None;
  assertion ok;;
  (* Sync the new LBA *)
  done ← ds_sync cl_gc io;
  if done : bool then do_cleanup else mret tt.

Definition on_lock_available (io : bool) : M unit := do_replace_disk_structure io.

Definition on_sync_lba : M unit := do_cleanup.

(** [new gc_fsm_t(owner)] *)
Definition create (io : bool) : M unit :=
  ok ← lock_lock rwi_write (Some lc_gc);
  if ok : bool then do_replace_disk_structure io else mret tt.

End gc_fsm_t.

Definition gc (io : bool) : M unit := gc_fsm_t.create io.

Module lba_syncer_t.

(** [new lba_syncer_t(owner)] *)
Definition create : M nat :=
  n ← gets next_fsm;
  modify (set_next_fsm (S n));;
  modify (λ w, set_syncers (<[n := None]> (syncers w)) w);;
  mret n.

(** [this->callback] *)
Definition callback (s : nat) : M (option sync_callback_t) :=
  m ← gets syncers;
  match m !! s with
  | None => abort UseAfterFree
  | Some cb => mret cb
  end.

Definition set_callback (s : nat) (cb : option sync_callback_t) : M unit :=
  _ ← callback s;
  modify (λ w, set_syncers (<[s := cb]> (syncers w)) w).

(** [delete this] *)
Definition destroy (s : nat) : M unit :=
  _ ← callback s;
  modify (λ w, set_syncers (delete s (syncers w)) w).

Definition finish (s : nat) : M bool :=
  lock_unlock;;
  cb ← callback s;
  match cb with
  | Some c => log (OnLbaSync c)
  | None => mret tt
  end;;
  destroy s;;
  mret true.

Definition do_write (s : nat) (io : bool) : M bool :=
  done ← ds_sync (cl_syncer s) io;
  if done : bool then finish s else mret false.

Definition do_acquire_lock (s : nat) (io : bool) : M bool :=
  ok ← lock_lock rwi_read (Some (lc_syncer s));
  if ok : bool then do_write s io else mret false.

Definition run (s : nat) (cb : option sync_callback_t) (io : bool) : M bool :=
  set_callback s None;;
  ok ← do_acquire_lock s io;
  if ok : bool then mret true
  else
    set_callback s cb;;
    mret false.

Definition on_lock_available (s : nat) (io : bool) : M unit :=
  _ ← do_write s io; mret tt.

Definition on_sync_lba (s : nat) : M unit :=
  _ ← finish s; mret tt.

End lba_syncer_t.

(** [bool lba_list_t::sync(cb)]; [r] is what [rand()] returns, [io_gc] and
    [io] tell whether the flush of the collection and the flush of the sync
    complete at once. *)
Definition sync (cb : option sync_callback_t) (r : Z) (io_gc io : bool) : M bool :=
  assert_state state_ready;;
  (* Just to make sure that the LBA GC gets exercised *)
  (if (Z.rem r 5 =? 1)%Z then gc io_gc else mret tt);;
  syncer ← lba_syncer_t.create;
  lba_syncer_t.run syncer cb io.

Definition prepare_metablock : M metablock_mixin_t := ds_prepare_metablock.

Definition shutdown : M unit :=
  assert_state state_ready;;
  log IndexRelease;;
  modify (set_in_memory_index None);;
  ds_shutdown;;
  modify (set_disk_structure None);;
  modify (set_state state_shut_down).

(** [lba_list_t::~lba_list_t()] *)
Definition lba_list_t_delete : M unit :=
  st ← gets state;
  assertion (state_eqb st state_unstarted || state_eqb st state_shut_down);;
  t ← gets in_memory_index;
  assertion (match t with None => true | Some _ => false end);;
  d ← gets disk_structure;
  assertion (match d with None => true | Some _ => false end).

(** ** The event loop *)

(** What the collaborators complete later: a waiter that the lock has served
    is called back, a flush in flight completes, the load completes.  The
    index picks one of the pending ones: they may complete in any order. *)
Inductive event :=
| ev_lock_available (i : nat) (io : bool)
| ev_sync_done (i : nat)
| ev_load_done.

Definition deliver_lock_available (i : nat) (io : bool) : M unit :=
  l ← gets disk_structure_lock;
  match lk_granted l !! i with
  | None => abort NotEnabled
  | Some cb =>
      modify (set_disk_structure_lock
                (mk_lock (lk_readers l) (lk_writer l) (lk_queue l)
                         (delete i (lk_granted l))));;
      match cb with
      | None => abort NullDereference
      | Some (lc_syncer s) => lba_syncer_t.on_lock_available s io
      | Some lc_gc => gc_fsm_t.on_lock_available io
      end
  end.

Definition deliver_sync_done (i : nat) : M unit :=
  d ← gets disk_structure;
  match d with
  | None => abort NotEnabled
  | Some d =>
      match ds_pending d !! i with
      | None => abort NotEnabled
      | Some (n, c) =>
          modify (set_disk_structure
                    (Some (mk_ds (ds_gen d) (ds_entries d) (ds_flushed d `max` n)
                                 (delete i (ds_pending d)))));;
          match c with
          | cl_syncer s => lba_syncer_t.on_sync_lba s
          | cl_gc => gc_fsm_t.on_sync_lba
          end
      end
  end.

Definition deliver_load_done : M unit :=
  p ← gets loading;
  match p with
  | None => abort NotEnabled
  | Some (mb, s) =>
      g ← gets next_gen;
      modify (set_next_gen (S g));;
      modify (set_disk_structure (Some (ds_loaded g mb)));;
      modify (set_loading None);;
      lba_start_fsm_t.on_load_lba s
  end.

Definition deliver (e : event) : M unit :=
  match e with
  | ev_lock_available i io => deliver_lock_available i io
  | ev_sync_done i => deliver_sync_done i
  | ev_load_done => deliver_load_done
  end.

(** A run of the event loop. *)
Fixpoint deliver_all (es : list event) : M unit :=
  match es with
  | [] => mret tt
  | e :: es' => deliver e;; deliver_all es'
  end.

(** What the caller may ask of a ready directory. *)
Inductive request :=
| req_gen_block_id
| req_set_block_offset (block : block_id_t) (offset : off64_t)
| req_delete_block (block : block_id_t)
| req_sync (cb : option sync_callback_t) (r : Z) (io_gc io : bool)
| req_gc (io : bool).

Definition serve_request (q : request) : M unit :=
  match q with
  | req_gen_block_id => _ ← gen_block_id; mret tt
  | req_set_block_offset b o => set_block_offset b o
  | req_delete_block b => delete_block b
  | req_sync cb r io_gc io => _ ← sync cb r io_gc io; mret tt
  | req_gc io => gc io
  end.

(** One step of the program: a request of the caller or an event. *)
Inductive action :=
| act_request (q : request)
| act_event (e : event).

Definition step (a : action) : M unit :=
  match a with
  | act_request q => serve_request q
  | act_event e => deliver e
  end.

Fixpoint steps (l : list action) : M unit :=
  match l with
  | [] => mret tt
  | a :: l' => step a;; steps l'
  end.

(** The table that recovery would rebuild now: load the anchor that
    [prepare_metablock] produces and replay the log behind it. *)
Definition recovered_index (w : world) : option (list off64_t) :=
  match prepare_metablock w with
  | Done (mb, _) =>
      match start_existing (dbfd w) mb None true lba_list_t_new with
      | Done (_, w') => in_memory_index w'
      | _ => None
      end
  | _ => None
  end.


(** * Vocabulary of the statements *)

(** The entries that describe the table [t] from id [from] on: one entry per
    id, with its current offset or tombstone. *)
Definition index_entries_from (from : block_id_t) (t : list off64_t)
  : list lba_entry_t :=
  map (λ id, (id, in_memory_index_t.get_block_offset t id))
      (seq from (length t - from)).

Definition index_entries (t : list off64_t) : list lba_entry_t :=
  index_entries_from 0 t.

(** The calls that append the entries [es] to generation [g]. *)
Definition add_entry_calls (g : nat) (es : list lba_entry_t) : list call :=
  map (λ e, DsAddEntry g e.1 e.2) es.

(** A computation that leaves the offset table, the lifecycle state and the
    load in flight as they are. *)
Definition keeps_index {A} (m : M A) : Prop :=
  ∀ w a w', m w = Done (a, w') →
    in_memory_index w' = in_memory_index w ∧ state w' = state w
    ∧ loading w' = loading w.

(** [k] successive calls of [gen_block_id]. *)
Fixpoint gen_block_ids (k : nat) : M (list block_id_t) :=
  match k with
  | 0 => mret []
  | S k' => id ← gen_block_id; ids ← gen_block_ids k'; mret (id :: ids)
  end.

(** What a call returns, apart from the state it leaves. *)
Definition returned {A} (o : outcome (A * world)) : outcome A :=
  match o with
  | Done (a, _) => Done a
  | Abort e => Abort e
  end.

(** The two halves of [gc_fsm_t::do_replace_disk_structure]: up to the end of
    the copy loop, and from the downgrade of the lock on. *)
Definition replace_and_copy : M unit :=
  ds_destroy;;
  ds_create;;
  n ← gets (λ w, from_option length 0 (in_memory_index w));
  gc_fsm_t.copy_entries n 0.

Definition downgrade_and_sync (io : bool) : M unit :=
  lock_unlock;;
  ok ← lock_lock rwi_read None;
  assertion ok;;
  done ← ds_sync cl_gc io;
  if done : bool then gc_fsm_t.do_cleanup else mret tt.


(** The requests that change the offset table. *)
Definition changes_table (a : action) : bool :=
  match a with
  | act_request req_gen_block_id => true
  | act_request (req_set_block_offset _ _) => true
  | act_request (req_delete_block _) => true
  | _ => false
  end.



(** ** Durability *)

(** The table agrees with the log: replaying the entries of the current disk
    structure gives the table; the durable part of the log and what the
    flushes in flight cover are prefixes of it; no load is in flight. *)
Definition consistent (w : world) : Prop :=
  loading w = None
  ∧ ∃ t d, in_memory_index w = Some t ∧ disk_structure w = Some d
      ∧ in_memory_index_t.replay (ds_entries d) = t
      ∧ ds_flushed d ≤ length (ds_entries d)
      ∧ Forall (λ p, p.1 ≤ length (ds_entries d)) (ds_pending d).

(** Every flush in flight for syncer [s] covers the whole log. *)
Definition flush_covers_log (s : nat) (w : world) : Prop :=
  ∀ d n, disk_structure w = Some d →
    (n, cl_syncer s) ∈ ds_pending d → n = length (ds_entries d).

(** No flush is in flight for syncer [s]. *)
Definition no_flush_of (s : nat) (w : world) : Prop :=
  ∀ d n, disk_structure w = Some d → (n, cl_syncer s) ∉ ds_pending d.

(** The syncers that wait for a flush were allocated before. *)
Definition flushes_of_allocated_syncers (w : world) : Prop :=
  ∀ d n s, disk_structure w = Some d →
    (n, cl_syncer s) ∈ ds_pending d → s < next_fsm w.

(** A computation that keeps the property [P] of the state when it
    returns. *)
Definition preserves (P : world → Prop) {A} (m : M A) : Prop :=
  ∀ w a w', P w → m w = Done (a, w') → P w'.

(** The requests that change a mapping. *)
Definition is_mapping_change (q : request) : bool :=
  match q with
  | req_set_block_offset _ _ => true
  | req_delete_block _ => true
  | _ => false
  end.

(** What holds while syncer [s] waits, as long as no mapping changes: the
    table and the log agree, and the flush of [s], once started, covers the
    whole log. *)
Definition sync_in_progress (s : nat) (w : world) : Prop :=
  consistent w ∧ flush_covers_log s w.

(** * Reasoning about runs *)

(** Let [cbn] run the monad. *)
#[local] Arguments mbind {_ _ _ _} _ _ / : assert.
#[local] Arguments M_bind {_ _} _ _ _ /.
#[local] Arguments mret {_ _ _} _ / : assert.
#[local] Arguments M_ret {_} _ _ /.

Ltac mrun :=
  cbn -[lookup insert delete Z.rem Z.eqb rwi_lock_t.lock rwi_lock_t.unlock
        gc_fsm_t.copy_entries in_memory_index_t.set_block_offset
        in_memory_index_t.replay Nat.max] in *.

Ltac mgo := repeat (progress (mrun; try rewrite !lookup_insert_eq)).

Lemma bind_Done {A B} (m : M A) (f : A → M B) w b w' :
  (m ≫= f) w = Done (b, w') ↔ ∃ a w1, m w = Done (a, w1) ∧ f a w1 = Done (b, w').
Proof.
  cbn. destruct (m w) as [[a w1]|e]; split.
  - eauto.
  - by intros (? & ? & [= -> ->] & ?).
  - done.
  - by intros (? & ? & ? & ?).
Qed.

Lemma state_eqb_eq a b : state_eqb a b = true ↔ a = b.
Proof. destruct a, b; cbn; split; congruence. Qed.

Lemma assert_state_Done s w u w' :
  assert_state s w = Done (u, w') ↔ state w = s ∧ w' = w.
Proof.
  unfold assert_state. cbn.
  destruct (state_eqb (state w) s) eqn:E; cbn.
  - apply state_eqb_eq in E. destruct u. split; [by intros [= <-]|by intros [_ ->]].
  - split; [done|]. intros [Hs _]. apply state_eqb_eq in Hs. congruence.
Qed.

Lemma assert_state_fail s w :
  state w ≠ s → assert_state s w = Abort AssertionFailure.
Proof. unfold assert_state. cbn. by destruct (state w), s. Qed.

Lemma assert_state_ok s w : state w = s → assert_state s w = Done (tt, w).
Proof. intros <-. unfold assert_state. cbn. by destruct (state w). Qed.

(** ** The offset table *)

Lemma index_set_length (t : list Z) b o :
  length (in_memory_index_t.set_block_offset t b o) = length t `max` S b.
Proof.
  unfold in_memory_index_t.set_block_offset.
  rewrite length_insert, length_app, length_replicate. lia.
Qed.

Lemma index_get_set (t : list Z) b o :
  in_memory_index_t.get_block_offset (in_memory_index_t.set_block_offset t b o) b = o.
Proof.
  unfold in_memory_index_t.get_block_offset, in_memory_index_t.set_block_offset.
  rewrite list_lookup_insert_eq; [done|].
  rewrite length_app, length_replicate. lia.
Qed.

Lemma index_get_set_ne (t : list Z) b b' o :
  b ≠ b' →
  in_memory_index_t.get_block_offset (in_memory_index_t.set_block_offset t b o) b'
  = in_memory_index_t.get_block_offset t b'.
Proof.
  intros Hne.
  unfold in_memory_index_t.get_block_offset, in_memory_index_t.set_block_offset.
  rewrite list_lookup_insert_ne by done.
  destruct (decide (b' < length t)) as [Hlt|Hge].
  - by rewrite lookup_app_l.
  - rewrite lookup_app_r by lia.
    rewrite (lookup_ge_None_2 t) by lia.
    destruct (replicate _ _ !! _) eqn:E; [|done].
    by apply lookup_replicate in E as [-> _].
Qed.

Lemma index_get_gen (t : list Z) b :
  in_memory_index_t.get_block_offset (in_memory_index_t.gen_block_id t).2 b
  = in_memory_index_t.get_block_offset t b.
Proof.
  unfold in_memory_index_t.get_block_offset, in_memory_index_t.gen_block_id. cbn.
  destruct (decide (b < length t)) as [Hlt|Hge].
  - by rewrite lookup_app_l.
  - rewrite (lookup_ge_None_2 t) by lia.
    destruct (decide (b = length t)) as [->|Hne].
    + by rewrite list_lookup_middle.
    + rewrite lookup_ge_None_2; [done|]. rewrite length_app. cbn. lia.
Qed.

(** * Mapping operations *)

(** C3: [set_block_offset] and [delete_block] first update the offset table,
    so that [get_block_offset] sees the change at once, and then append the
    entry (the tombstone [DELETE_BLOCK] for a delete) to the disk structure
    that is current at the call; they return without starting or awaiting a
    flush: nothing becomes durable, the lock is not touched. *)
Theorem set_and_delete_update_then_append w t d b o :
  state w = state_ready →
  in_memory_index w = Some t →
  disk_structure w = Some d →
  let appended e :=
    Some (mk_ds (ds_gen d) (ds_entries d ++ [e]) (ds_flushed d) (ds_pending d)) in
  (∃ w', set_block_offset b o w = Done (tt, w')
     ∧ in_memory_index w' = Some (in_memory_index_t.set_block_offset t b o)
     ∧ get_block_offset b w' = Done (o, w')
     ∧ disk_structure w' = appended (b, o)
     ∧ calls w' = calls w ++ [IndexSet b o; DsAddEntry (ds_gen d) b o]
     ∧ disk_structure_lock w' = disk_structure_lock w)
  ∧ (∃ w', delete_block b w = Done (tt, w')
     ∧ in_memory_index w' = Some (in_memory_index_t.delete_block t b)
     ∧ get_block_offset b w' = Done (DELETE_BLOCK, w')
     ∧ disk_structure w' = appended (b, DELETE_BLOCK)
     ∧ calls w' = calls w ++ [IndexDelete b; DsAddEntry (ds_gen d) b DELETE_BLOCK]
     ∧ disk_structure_lock w' = disk_structure_lock w).
Proof.
  intros Hst Hidx Hds.
  destruct w as [st fd idx ds lk sy sr nf ng ld cl]; cbn in *; subst.
  split; eexists; (split; [reflexivity|]); cbn; rewrite <- ?app_assoc; cbn;
    repeat split; unfold get_block_offset; cbn; do 2 f_equal;
    unfold in_memory_index_t.delete_block; apply index_get_set.
Qed.

Lemma set_and_delete_update_then_append_witness :
  let w := mk_world state_ready 3%Z (Some [5%Z]) (Some (mk_ds 0 [(0, 5%Z)] 0 []))
             rwi_lock_t.unlocked ∅ ∅ 0 1 None [] in
  (∃ w', set_block_offset 2 40%Z w = Done (tt, w')
     ∧ in_memory_index w' = Some [5%Z; DELETE_BLOCK; 40%Z]
     ∧ calls w' = [IndexSet 2 40%Z; DsAddEntry 0 2 40%Z])
  ∧ (∃ w', delete_block 0 w = Done (tt, w')
     ∧ in_memory_index w' = Some [DELETE_BLOCK]
     ∧ calls w' = [IndexDelete 0; DsAddEntry 0 0 DELETE_BLOCK]).
Proof.
  intros w.
  destruct (set_and_delete_update_then_append w [5%Z] (mk_ds 0 [(0, 5%Z)] 0 []) 2 40%Z
              eq_refl eq_refl eq_refl) as [(w1 & H1 & H2 & _ & _ & H3 & _) _].
  destruct (set_and_delete_update_then_append w [5%Z] (mk_ds 0 [(0, 5%Z)] 0 []) 0 0%Z
              eq_refl eq_refl eq_refl) as [_ (w2 & G1 & G2 & _ & _ & G3 & _)].
  split; [exists w1 | exists w2]; repeat split; assumption.
Defined.

(** * Lifecycle contracts *)

(** The destructor returns exactly when the directory was never started or was
    shut down, with both pointers [NULL]. *)
Lemma lba_list_t_delete_Done w u w' :
  lba_list_t_delete w = Done (u, w') ↔
  (state w = state_unstarted ∨ state w = state_shut_down)
  ∧ in_memory_index w = None ∧ disk_structure w = None ∧ w' = w.
Proof.
  unfold lba_list_t_delete. destruct u.
  destruct w as [st fd idx ds lk sy sr nf ng ld cl]; cbn. split.
  - destruct st, idx, ds; cbn; intros H; try discriminate H;
      injection H as <-; auto.
  - by intros ([-> | ->] & -> & -> & ->).
Qed.

(** C8 as stated fails: a directory that was never started is destroyed
    without any assertion failing. *)
Lemma destructor_unstarted_ok :
  ¬ (∀ w, state w ≠ state_shut_down → lba_list_t_delete w = Abort AssertionFailure).
Proof. intros H. by specialize (H lba_list_t_new ltac:(done)). Qed.

(** C8, amended: destroying the directory is an assertion failure in the
    states [starting_up] and [ready]; it is allowed in [shut_down] and also in
    [unstarted], the state the constructor leaves. *)
Theorem destructor_contract w :
  (state w = state_starting_up ∨ state w = state_ready →
   lba_list_t_delete w = Abort AssertionFailure)
  ∧ (state w = state_unstarted ∨ state w = state_shut_down →
     in_memory_index w = None → disk_structure w = None →
     lba_list_t_delete w = Done (tt, w))
  ∧ lba_list_t_delete lba_list_t_new = Done (tt, lba_list_t_new)
  ∧ (∀ w', state w = state_ready → shutdown w = Done (tt, w') →
     lba_list_t_delete w' = Done (tt, w')).
Proof.
  split; [|split; [|split]].
  - unfold lba_list_t_delete.
    destruct w as [st fd idx ds lk sy sr nf ng ld cl]; cbn. by intros [-> | ->].
  - intros Hst Hi Hd. by apply lba_list_t_delete_Done.
  - done.
  - intros w' Hst Hsh. apply lba_list_t_delete_Done.
    unfold shutdown in Hsh.
    destruct w as [st fd idx ds lk sy sr nf ng ld cl]; cbn in *; subst.
    destruct ds; cbn in Hsh; [|done]. injection Hsh as <-. cbn. auto.
Qed.

Lemma destructor_contract_witness :
  let w := mk_world state_ready 3%Z (Some []) (Some (ds_empty 0))
             rwi_lock_t.unlocked ∅ ∅ 0 1 None [] in
  lba_list_t_delete w = Abort AssertionFailure
  ∧ ∃ w', shutdown w = Done (tt, w') ∧ lba_list_t_delete w' = Done (tt, w').
Proof.
  intros w. destruct (destructor_contract w) as (H1 & _ & _ & H4).
  split; [apply H1; right; reflexivity|].
  eexists. split; [reflexivity|]. apply H4; reflexivity.
Defined.

(** Every operation of the mapping and durability interface, and [shutdown],
    checks the state first. *)
Lemma state_checked_operations w :
  state w ≠ state_ready →
  gen_block_id w = Abort AssertionFailure
  ∧ max_block_id w = Abort AssertionFailure
  ∧ (∀ b, get_block_offset b w = Abort AssertionFailure)
  ∧ (∀ b o, set_block_offset b o w = Abort AssertionFailure)
  ∧ (∀ b, delete_block b w = Abort AssertionFailure)
  ∧ (∀ cb r io_gc io, sync cb r io_gc io w = Abort AssertionFailure)
  ∧ shutdown w = Abort AssertionFailure.
Proof.
  intros Hst.
  unfold gen_block_id, max_block_id, get_block_offset, set_block_offset,
    delete_block, sync, shutdown.
  repeat split; intros; cbn -[assert_state]; by rewrite assert_state_fail.
Qed.

(** C9: [prepare_metablock] has no state check.  In a state other than
    [ready] the other operations fail their assertion; [prepare_metablock]
    goes straight to the disk structure: with one installed it returns the
    anchor whatever the state, with none (as the constructor and [shutdown]
    leave it) it dereferences the [NULL] pointer instead of failing an
    assertion. *)
Theorem prepare_metablock_unchecked w :
  (state w ≠ state_ready →
     gen_block_id w = Abort AssertionFailure
     ∧ max_block_id w = Abort AssertionFailure
     ∧ (∀ b, get_block_offset b w = Abort AssertionFailure)
     ∧ (∀ b o, set_block_offset b o w = Abort AssertionFailure)
     ∧ (∀ b, delete_block b w = Abort AssertionFailure)
     ∧ (∀ cb r io_gc io, sync cb r io_gc io w = Abort AssertionFailure)
     ∧ shutdown w = Abort AssertionFailure)
  ∧ (disk_structure w = None → prepare_metablock w = Abort NullDereference)
  ∧ (∀ d, disk_structure w = Some d →
       prepare_metablock w
       = Done (mk_mb (ds_durable d), record (DsPrepareMetablock (ds_gen d)) w))
  ∧ disk_structure lba_list_t_new = None
  ∧ (∀ w', shutdown w = Done (tt, w') →
       state w' = state_shut_down ∧ disk_structure w' = None).
Proof.
  split; [apply state_checked_operations|].
  unfold prepare_metablock, ds_prepare_metablock.
  destruct w as [st fd idx ds lk sy sr nf ng ld cl]; cbn.
  split; [by intros ->|]. split; [by intros d ->|]. split; [done|].
  intros w'. unfold shutdown. cbn. destruct st; cbn; try done.
  destruct ds; cbn; [|done]. by intros [= <-].
Qed.

Lemma prepare_metablock_unchecked_witness :
  gen_block_id lba_list_t_new = Abort AssertionFailure
  ∧ shutdown lba_list_t_new = Abort AssertionFailure
  ∧ prepare_metablock lba_list_t_new = Abort NullDereference
  ∧ prepare_metablock
      (mk_world state_starting_up 3%Z None (Some (mk_ds 0 [(0, 7%Z)] 1 []))
                rwi_lock_t.unlocked ∅ ∅ 0 1 None [])
    = Done (mk_mb [(0, 7%Z)],
            mk_world state_starting_up 3%Z None (Some (mk_ds 0 [(0, 7%Z)] 1 []))
                rwi_lock_t.unlocked ∅ ∅ 0 1 None [DsPrepareMetablock 0]).
Proof.
  destruct (prepare_metablock_unchecked lba_list_t_new) as (H1 & H2 & _).
  destruct (H1 ltac:(discriminate)) as (G1 & _ & _ & _ & _ & _ & G7).
  destruct (prepare_metablock_unchecked
              (mk_world state_starting_up 3%Z None (Some (mk_ds 0 [(0, 7%Z)] 1 []))
                rwi_lock_t.unlocked ∅ ∅ 0 1 None [])) as (_ & _ & H3 & _).
  split; [exact G1|]. split; [exact G7|]. split; [apply H2; reflexivity|].
  apply (H3 _ eq_refl).
Defined.


(** ** Running the monad by rewriting *)

Lemma bind_bind {A B C} (m : M A) (f : A → M B) (k : B → M C) w :
  ((m ≫= f) ≫= k) w = (m ≫= (λ a, f a ≫= k)) w.
Proof. cbn. by destruct (m w) as [[a w1]|e]. Qed.

Lemma bind_Abort_eq {A B} (m : M A) (k : A → M B) w e :
  m w = Abort e → (m ≫= k) w = Abort e.
Proof. cbn. by intros ->. Qed.

Lemma bind_Done_eq {A B} (m : M A) (k : A → M B) w a w1 :
  m w = Done (a, w1) → (m ≫= k) w = k a w1.
Proof. cbn. by intros ->. Qed.

Lemma bind_ret {A B} (a : A) (k : A → M B) w : (mret a ≫= k) w = k a w.
Proof. reflexivity. Qed.

Lemma bind_gets {A B} (f : world → A) (k : A → M B) w :
  (gets f ≫= k) w = k (f w) w.
Proof. reflexivity. Qed.

Lemma bind_modify {B} (f : world → world) (k : unit → M B) w :
  (modify f ≫= k) w = k tt (f w).
Proof. reflexivity. Qed.

Lemma bind_abort {A B} e (k : A → M B) w : (abort e ≫= k) w = Abort e.
Proof. reflexivity. Qed.

Lemma run_ret {A} (a : A) w : mret (M:=M) a w = Done (a, w).
Proof. reflexivity. Qed.

Lemma run_gets {A} (f : world → A) w : gets f w = Done (f w, w).
Proof. reflexivity. Qed.

Lemma run_modify (f : world → world) w : modify f w = Done (tt, f w).
Proof. reflexivity. Qed.

Lemma run_abort {A} e w : abort (A:=A) e w = Abort e.
Proof. reflexivity. Qed.

Ltac mfold :=
  unfold log, assert_state, with_index, with_ds, ds_create, ds_load,
    ds_add_entry, ds_sync, ds_prepare_metablock, ds_destroy, ds_shutdown,
    lock_lock, lock_unlock;
  cbn [state dbfd in_memory_index disk_structure disk_structure_lock syncers
       starters next_fsm next_gen loading calls
       set_state set_dbfd set_in_memory_index set_disk_structure
       set_disk_structure_lock set_syncers set_starters set_next_fsm
       set_next_gen set_loading record
       assertion state_eqb start_fsm_state_eqb orb andb negb
       ds_gen ds_entries ds_flushed ds_pending ds_empty ds_loaded
       mb_log fsm_state fsm_callback fst snd
       lk_readers lk_writer lk_queue lk_granted].

Ltac mstep :=
  first
    [ rewrite bind_bind
    | rewrite bind_ret
    | rewrite bind_gets
    | rewrite bind_modify
    | rewrite bind_abort
    | rewrite run_ret
    | rewrite run_gets
    | rewrite run_modify
    | rewrite run_abort
    | rewrite lookup_insert_eq
    | rewrite lookup_delete_eq ].

Ltac mexec := repeat (progress (mfold; repeat mstep)).

(** Flatten the field updates of a world given by its fields. *)
Ltac mflat :=
  cbv beta iota delta
    [set_state set_dbfd set_in_memory_index set_disk_structure
     set_disk_structure_lock set_syncers set_starters set_next_fsm
     set_next_gen set_loading record
     state dbfd in_memory_index disk_structure disk_structure_lock syncers
     starters next_fsm next_gen loading calls].
(** * Recovery startup *)

(** C6 as stated fails: with a [NULL] ready-callback and a load that does
    not complete at once, [start] returns [false], and when the load
    completes the finish step runs but nothing is called, and no event is
    left that could call anything: neither of the two occurs. *)
Lemma start_existing_null_callback_neither :
  let mb := mk_mb [(0, 100%Z); (2, 7%Z); (0, DELETE_BLOCK)] in
  ∃ w1 w2,
    start_existing 3%Z mb None false lba_list_t_new = Done (false, w1)
    ∧ deliver ev_load_done w1 = Done (tt, w2)
    ∧ state w2 = state_ready
    ∧ calls w2 = [DsLoad false; IndexLoad]
    ∧ ∀ e, deliver e w2 = Abort NotEnabled.
Proof.
  intros mb. eexists _, _.
  split; [vm_compute; reflexivity|]. split; [vm_compute; reflexivity|].
  split; [reflexivity|]. split; [reflexivity|].
  intros [i io|i|]; [| |reflexivity].
  - unfold deliver, deliver_lock_available. mexec. by rewrite lookup_nil.
  - unfold deliver, deliver_sync_done. mexec. by rewrite lookup_nil.
Qed.

(** C6, amended: [start] with an anchor is legal only in [unstarted] and
    moves to [starting_up].  When the load completes at once the finish step
    runs before [start] returns [true], and the ready-callback is never
    called; otherwise [start] returns [false] in [starting_up], and the
    completion of the load runs the same finish step (the table is the replay
    of the loaded log, the state is [ready]) and then calls the
    ready-callback if the caller gave one, once: the load cannot complete a
    second time.  With a [NULL] callback the completion calls nothing. *)
Theorem start_existing_either_or w fd mb cb io :
  (state w ≠ state_unstarted →
     start_existing fd mb cb io w = Abort AssertionFailure)
  ∧ (state w = state_unstarted → loading w = None →
     let table := Some (in_memory_index_t.replay (mb_log mb)) in
     let log := Some (ds_loaded (next_gen w) mb) in
     (∃ w', start_existing fd mb cb true w = Done (true, w')
        ∧ state w' = state_ready
        ∧ in_memory_index w' = table
        ∧ disk_structure w' = log
        ∧ calls w' = calls w ++ [DsLoad true; IndexLoad]
        ∧ deliver ev_load_done w' = Abort NotEnabled)
     ∧ (∃ w1 w2, start_existing fd mb cb false w = Done (false, w1)
        ∧ state w1 = state_starting_up
        ∧ calls w1 = calls w ++ [DsLoad false]
        ∧ deliver ev_load_done w1 = Done (tt, w2)
        ∧ state w2 = state_ready
        ∧ in_memory_index w2 = table
        ∧ disk_structure w2 = log
        ∧ calls w2 = calls w1 ++ IndexLoad ::
                      match cb with Some c => [OnLbaReady c] | None => [] end
        ∧ deliver ev_load_done w2 = Abort NotEnabled)).
Proof.
  split.
  - intros Hst. unfold start_existing.
    apply bind_Abort_eq. by apply assert_state_fail.
  - intros Hst Hld.
    destruct w as [st fd0 idx ds lk sy sr nf ng ld cl]; cbn in Hst, Hld; subst.
    cbn [next_gen calls].
    unfold start_existing, lba_start_fsm_t.create, lba_start_fsm_t.run,
      lba_start_fsm_t.set_callback, lba_start_fsm_t.on_load_lba,
      lba_start_fsm_t.finish, lba_start_fsm_t.destroy, lba_start_fsm_t.this.
    split.
    + mexec. eexists. split; [reflexivity|].
      unfold deliver, deliver_lock_available, deliver_sync_done,
        deliver_load_done.
      mexec. cbn. rewrite <- !app_assoc. repeat split.
    + destruct cb as [c|]; mexec; (do 2 eexists); (split; [reflexivity|]);
        unfold deliver, deliver_lock_available, deliver_sync_done,
          deliver_load_done, lba_start_fsm_t.on_load_lba,
          lba_start_fsm_t.finish, lba_start_fsm_t.destroy,
          lba_start_fsm_t.this;
        mexec; repeat split; cbn; rewrite <- ?app_assoc; reflexivity.
Qed.

Lemma start_existing_either_or_witness :
  let mb := mk_mb [(0, 100%Z); (2, 7%Z); (0, DELETE_BLOCK)] in
  (∃ w', start_existing 3%Z mb (Some 9) true lba_list_t_new = Done (true, w')
     ∧ state w' = state_ready
     ∧ in_memory_index w' = Some [DELETE_BLOCK; DELETE_BLOCK; 7%Z]
     ∧ calls w' = [DsLoad true; IndexLoad])
  ∧ (∃ w1 w2, start_existing 3%Z mb (Some 9) false lba_list_t_new = Done (false, w1)
     ∧ deliver ev_load_done w1 = Done (tt, w2)
     ∧ in_memory_index w2 = Some [DELETE_BLOCK; DELETE_BLOCK; 7%Z]
     ∧ calls w2 = [DsLoad false; IndexLoad; OnLbaReady 9]).
Proof.
  intros mb.
  destruct (start_existing_either_or lba_list_t_new 3%Z mb (Some 9) true)
    as [_ H].
  destruct (H eq_refl eq_refl)
    as [(w' & H1 & H2 & H3 & _ & H5 & _)
        (w1 & w2 & G1 & _ & G3 & G4 & _ & G6 & _ & G8 & _)].
  split.
  - exists w'. repeat split; assumption.
  - exists w1, w2. split; [assumption|]. split; [assumption|].
    split; [assumption|]. rewrite G8, G3. reflexivity.
Defined.

(** * What leaves the offset table alone *)

Lemma keeps_index_ret {A} (a : A) : keeps_index (mret a).
Proof. by intros w a' w' [= <- <-]. Qed.

Lemma keeps_index_bind {A B} (m : M A) (f : A → M B) :
  keeps_index m → (∀ a, keeps_index (f a)) → keeps_index (m ≫= f).
Proof.
  intros Hm Hf w b w' (a & w1 & H1 & H2)%bind_Done.
  apply Hm in H1 as (<- & <- & <-). by apply Hf in H2.
Qed.

Lemma keeps_index_gets {A} (f : world → A) : keeps_index (gets f).
Proof. by intros w a' w' [= <- <-]. Qed.

Lemma keeps_index_abort {A} e : keeps_index (abort (A:=A) e).
Proof. by intros w a' w'. Qed.

Lemma keeps_index_modify f :
  (∀ w, in_memory_index (f w) = in_memory_index w ∧ state (f w) = state w
        ∧ loading (f w) = loading w) →
  keeps_index (modify f).
Proof. intros Hf w a' w' [= _ <-]. apply Hf. Qed.

Lemma keeps_index_assertion b : keeps_index (assertion b).
Proof. destruct b; [apply keeps_index_ret|apply keeps_index_abort]. Qed.

Lemma keeps_index_log c : keeps_index (log c).
Proof. apply keeps_index_modify. by intros []. Qed.

Create HintDb keeps discriminated.
#[local] Hint Resolve keeps_index_ret keeps_index_gets keeps_index_abort
  keeps_index_assertion keeps_index_log : keeps.

Ltac keeps_step :=
  lazymatch goal with
  | |- keeps_index (mbind _ _) => apply keeps_index_bind; [|intros ?]
  | |- keeps_index (modify _) => apply keeps_index_modify; intros []; by cbn
  | |- keeps_index (match ?x with _ => _ end) => destruct x
  | |- keeps_index (let r := _ in _) => cbv zeta
  end.

Ltac keeps_go := repeat keeps_step; auto with keeps.

Lemma keeps_index_assert_state s : keeps_index (assert_state s).
Proof. unfold assert_state. keeps_go. Qed.

#[local] Hint Resolve keeps_index_assert_state : keeps.

Lemma keeps_index_ds_add_entry b o : keeps_index (ds_add_entry b o).
Proof. unfold ds_add_entry, with_ds. keeps_go. Qed.

Lemma keeps_index_ds_sync c io : keeps_index (ds_sync c io).
Proof. unfold ds_sync, with_ds. keeps_go. Qed.

Lemma keeps_index_ds_destroy : keeps_index ds_destroy.
Proof. unfold ds_destroy, with_ds. keeps_go. Qed.

Lemma keeps_index_ds_create : keeps_index ds_create.
Proof. unfold ds_create. keeps_go. Qed.

Lemma keeps_index_lock_lock a cb : keeps_index (lock_lock a cb).
Proof. unfold lock_lock. keeps_go. Qed.

Lemma keeps_index_lock_unlock : keeps_index lock_unlock.
Proof. unfold lock_unlock. keeps_go. Qed.

Lemma keeps_index_max_block_id : keeps_index max_block_id.
Proof. unfold max_block_id, with_index. keeps_go. Qed.

Lemma keeps_index_get_block_offset b : keeps_index (get_block_offset b).
Proof. unfold get_block_offset, with_index. keeps_go. Qed.

#[local] Hint Resolve keeps_index_ds_add_entry keeps_index_ds_sync
  keeps_index_ds_destroy keeps_index_ds_create keeps_index_lock_lock
  keeps_index_lock_unlock keeps_index_max_block_id
  keeps_index_get_block_offset : keeps.

Lemma keeps_index_copy_entries n id : keeps_index (gc_fsm_t.copy_entries n id).
Proof.
  revert id. induction n as [|n IH]; intros id; cbn [gc_fsm_t.copy_entries];
    keeps_go.
Qed.

#[local] Hint Resolve keeps_index_copy_entries : keeps.

Lemma keeps_index_do_replace io :
  keeps_index (gc_fsm_t.do_replace_disk_structure io).
Proof.
  unfold gc_fsm_t.do_replace_disk_structure, gc_fsm_t.do_cleanup. keeps_go.
Qed.

#[local] Hint Resolve keeps_index_do_replace : keeps.

Lemma keeps_index_gc io : keeps_index (gc io).
Proof. unfold gc, gc_fsm_t.create. keeps_go. Qed.

Lemma keeps_index_syncer_finish s : keeps_index (lba_syncer_t.finish s).
Proof.
  unfold lba_syncer_t.finish, lba_syncer_t.destroy, lba_syncer_t.callback.
  keeps_go.
Qed.

#[local] Hint Resolve keeps_index_gc keeps_index_syncer_finish : keeps.

Lemma keeps_index_syncer_do_write s io : keeps_index (lba_syncer_t.do_write s io).
Proof. unfold lba_syncer_t.do_write. keeps_go. Qed.

#[local] Hint Resolve keeps_index_syncer_do_write : keeps.

Lemma keeps_index_sync cb r io_gc io : keeps_index (sync cb r io_gc io).
Proof.
  unfold sync, lba_syncer_t.create, lba_syncer_t.run, lba_syncer_t.set_callback,
    lba_syncer_t.do_acquire_lock, lba_syncer_t.callback.
  keeps_go.
Qed.

Lemma keeps_index_deliver_lock_available i io :
  keeps_index (deliver_lock_available i io).
Proof.
  unfold deliver_lock_available, lba_syncer_t.on_lock_available,
    gc_fsm_t.on_lock_available.
  keeps_go.
Qed.

Lemma keeps_index_deliver_sync_done i : keeps_index (deliver_sync_done i).
Proof.
  unfold deliver_sync_done, lba_syncer_t.on_sync_lba, gc_fsm_t.on_sync_lba,
    gc_fsm_t.do_cleanup.
  keeps_go.
Qed.

(** * Compaction *)

Lemma index_entries_from_lt (t : list Z) id :
  id < length t →
  index_entries_from id t
  = (id, in_memory_index_t.get_block_offset t id) :: index_entries_from (S id) t.
Proof.
  intros Hlt. unfold index_entries_from.
  replace (length t - id) with (S (length t - S id)) by lia. done.
Qed.

Lemma index_entries_from_ge (t : list Z) id :
  length t ≤ id → index_entries_from id t = [].
Proof.
  intros Hge. unfold index_entries_from.
  by replace (length t - id) with 0 by lia.
Qed.

(** The copy loop, with enough turns, appends the entry of every id from [id]
    up to [max_block_id()], in order, and changes nothing else. *)
Lemma copy_entries_spec n id fd t g es fl pe lk sy sr nf ng ld cl :
  length t - id ≤ n →
  gc_fsm_t.copy_entries n id
    (mk_world state_ready fd (Some t) (Some (mk_ds g es fl pe)) lk sy sr nf ng ld cl)
  = Done (tt,
      mk_world state_ready fd (Some t)
        (Some (mk_ds g (es ++ index_entries_from id t) fl pe)) lk sy sr nf ng ld
        (cl ++ add_entry_calls g (index_entries_from id t))).
Proof.
  revert id es cl. induction n as [|n IH]; intros id es cl Hn;
    cbn [gc_fsm_t.copy_entries]; unfold max_block_id, get_block_offset,
      in_memory_index_t.max_block_id; mexec;
    destruct (Nat.ltb_spec id (length t)) as [Hlt|Hge]; try lia.
  - rewrite index_entries_from_ge by lia. mexec. cbn. by rewrite !app_nil_r.
  - mexec. mflat. rewrite IH by lia.
    rewrite (index_entries_from_lt t id) by done.
    cbn. by rewrite <- !app_assoc.
  - rewrite index_entries_from_ge by lia. mexec. cbn. by rewrite !app_nil_r.
Qed.
Lemma replace_and_copy_spec fd t d lk sy sr nf ng ld cl :
  replace_and_copy
    (mk_world state_ready fd (Some t) (Some d) lk sy sr nf ng ld cl)
  = Done (tt,
      mk_world state_ready fd (Some t)
        (Some (mk_ds ng (index_entries t) 0 [])) lk sy sr nf (S ng) ld
        (cl ++ [DsDestroy (ds_gen d); DsCreate ng]
            ++ add_entry_calls ng (index_entries t))).
Proof.
  unfold replace_and_copy. mexec. mflat. cbn [from_option]. unfold ds_empty.
  rewrite copy_entries_spec by lia.
  unfold index_entries. cbn. by rewrite <- !app_assoc.
Qed.

Lemma do_replace_split io w :
  gc_fsm_t.do_replace_disk_structure io w
  = (replace_and_copy;; downgrade_and_sync io) w.
Proof.
  unfold gc_fsm_t.do_replace_disk_structure, replace_and_copy, downgrade_and_sync.
  by rewrite !bind_bind.
Qed.

(** C4: a compaction that gets the lock in write mode, at once in the
    constructor or later through [on_lock_available], runs
    [do_replace_disk_structure], which first tells the current disk structure
    to destroy itself and goes on without waiting, then creates an empty one
    and installs it, then appends to it the current table entry (offset or
    tombstone) of every id from [0] up to [max_block_id()], in order; the
    downgrade of the lock starts from there. *)
Theorem compaction_replaces_then_copies io w t d :
  state w = state_ready →
  in_memory_index w = Some t →
  disk_structure w = Some d →
  let g := next_gen w in
  (∃ w1, replace_and_copy w = Done (tt, w1)
     ∧ calls w1 = calls w ++ [DsDestroy (ds_gen d); DsCreate g]
                          ++ add_entry_calls g (index_entries t)
     ∧ disk_structure w1 = Some (mk_ds g (index_entries t) 0 [])
     ∧ in_memory_index w1 = Some t
     ∧ disk_structure_lock w1 = disk_structure_lock w
     ∧ gc_fsm_t.do_replace_disk_structure io w = downgrade_and_sync io w1)
  ∧ (∀ l', rwi_lock_t.lock rwi_write (Some lc_gc) (disk_structure_lock w)
             = (true, l') →
       gc io w = gc_fsm_t.do_replace_disk_structure io
                   (record (LockAcquire rwi_write true)
                      (set_disk_structure_lock l' w)))
  ∧ (∀ i, lk_granted (disk_structure_lock w) !! i = Some (Some lc_gc) →
       deliver (ev_lock_available i io) w
       = gc_fsm_t.do_replace_disk_structure io
           (set_disk_structure_lock
              (mk_lock (lk_readers (disk_structure_lock w))
                       (lk_writer (disk_structure_lock w))
                       (lk_queue (disk_structure_lock w))
                       (delete i (lk_granted (disk_structure_lock w)))) w)).
Proof.
  intros Hst Hidx Hds g. split; [|split].
  - rewrite do_replace_split.
    destruct w as [st fd idx ds lk sy sr nf ng ld cl]; cbn in Hst, Hidx, Hds, g;
      subst.
    eexists. split; [apply replace_and_copy_spec|].
    erewrite bind_Done_eq by apply replace_and_copy_spec.
    cbn [calls disk_structure in_memory_index disk_structure_lock].
    repeat split.
  - intros l' Hl. unfold gc, gc_fsm_t.create, lock_lock.
    mexec. by rewrite Hl.
  - intros i Hi. unfold deliver, deliver_lock_available,
      gc_fsm_t.on_lock_available.
    mexec. by rewrite Hi; mexec.
Qed.

Lemma compaction_replaces_then_copies_witness :
  let w := mk_world state_ready 3%Z (Some [DELETE_BLOCK; 40%Z])
             (Some (mk_ds 0 [(1, 7%Z); (0, 5%Z); (1, 40%Z); (0, DELETE_BLOCK)] 2 []))
             (mk_lock 0 true [] []) ∅ ∅ 0 1 None [] in
  ∃ w1, replace_and_copy w = Done (tt, w1)
    ∧ calls w1 = [DsDestroy 0; DsCreate 1; DsAddEntry 1 0 DELETE_BLOCK;
                  DsAddEntry 1 1 40%Z]
    ∧ disk_structure w1 = Some (mk_ds 1 [(0, DELETE_BLOCK); (1, 40%Z)] 0 []).
Proof.
  intros w.
  destruct (compaction_replaces_then_copies true w [DELETE_BLOCK; 40%Z]
              (mk_ds 0 [(1, 7%Z); (0, 5%Z); (1, 40%Z); (0, DELETE_BLOCK)] 2 [])
              eq_refl eq_refl eq_refl) as [(w1 & H1 & H2 & H3 & _) _].
  exists w1. repeat split; assumption.
Defined.

(** ** The downgrade of the lock *)

(** With only readers waiting, a release by the writer serves them all. *)
Lemma serve_readers q l :
  Forall (λ r, r.1 = rwi_read) q →
  lk_writer l = false →
  rwi_lock_t.serve q l
  = mk_lock (lk_readers l + length q) false [] (lk_granted l ++ q.*2).
Proof.
  revert l. induction q as [|[a cb] q IH]; intros [R W Q G] Hq HW;
    cbn in *; subst.
  - by rewrite Nat.add_0_r, app_nil_r.
  - apply Forall_cons in Hq as [Ha Hq]. cbn in Ha. subst a. cbn.
    rewrite IH by done. cbn. rewrite <- app_assoc. cbn. f_equal. lia.
Qed.

(** With a writer among the waiters, a release leaves the lock either held
    by a writer or with somebody still waiting. *)
Lemma serve_writer_waiting q l :
  Exists (λ r, r.1 = rwi_write) q →
  lk_writer (rwi_lock_t.serve q l) = true ∨ lk_queue (rwi_lock_t.serve q l) ≠ [].
Proof.
  revert l. induction q as [|[a cb] q IH]; intros [R W Q G] Hq.
  - by apply Exists_nil in Hq.
  - cbn. destruct a; cbn.
    + apply Exists_cons in Hq as [Ha|Hq]; [done|].
      destruct W; cbn; [by left|]. by apply IH.
    + destruct W; cbn; [by left|].
      destruct R; cbn; [|by right].
      destruct q as [|[a' cb'] q]; cbn; [by left|].
      destruct a'; cbn; by right.
Qed.

Lemma lock_read_after_serve_fails q l cb :
  Exists (λ r, r.1 = rwi_write) q →
  (rwi_lock_t.lock rwi_read cb (rwi_lock_t.serve q l)).1 = false.
Proof.
  intros Hq. unfold rwi_lock_t.lock, rwi_lock_t.compatible.
  destruct (serve_writer_waiting q l Hq) as [->|Hne]; [done|].
  destruct (lk_queue (rwi_lock_t.serve q l)); [done|].
  cbn. by rewrite andb_false_r.
Qed.

(** C7: after the copy loop the compaction releases the write lock and asks
    for the lock in read mode at once.  While no other compaction waits for
    the lock, the request is granted ([lock] returns [true]) and the flush
    of the new disk structure follows; when one waits, [lock] returns
    [false] and the assertion aborts the process: there is no retry. *)
Theorem downgrade_succeeds_unless_compaction_waits io w t d :
  state w = state_ready →
  in_memory_index w = Some t →
  disk_structure w = Some d →
  lk_writer (disk_structure_lock w) = true →
  let q := lk_queue (disk_structure_lock w) in
  let g := next_gen w in
  (Forall (λ r, r.1 = rwi_read) q →
     ∃ w', gc_fsm_t.do_replace_disk_structure io w = Done (tt, w')
       ∧ calls w' = calls w ++ [DsDestroy (ds_gen d); DsCreate g]
                            ++ add_entry_calls g (index_entries t)
                            ++ [LockRelease; LockAcquire rwi_read true;
                                DsSync g cl_gc io]
                            ++ (if io then [LockRelease] else [])
       ∧ lk_writer (disk_structure_lock w') = false
       ∧ lk_queue (disk_structure_lock w') = [])
  ∧ (Exists (λ r, r.1 = rwi_write) q →
     gc_fsm_t.do_replace_disk_structure io w = Abort AssertionFailure).
Proof.
  intros Hst Hidx Hds HW q g. subst q g. rewrite do_replace_split.
  destruct w as [st fd idx ds [R W Q G] sy sr nf ng ld cl]; cbn in *; subst.
  split; intros HQ; cbn -[replace_and_copy downgrade_and_sync];
    rewrite replace_and_copy_spec; unfold downgrade_and_sync, lock_unlock,
      lock_lock; cbn -[rwi_lock_t.serve rwi_lock_t.lock].
  - rewrite serve_readers by done. cbn.
    destruct io; cbn; eexists; (split; [reflexivity|]); cbn;
      rewrite <- !app_assoc; by repeat split.
  - pose proof (lock_read_after_serve_fails Q (mk_lock R false Q G) None HQ) as E.
    destruct (rwi_lock_t.lock rwi_read None _) as [ok l']. cbn in E. by subst ok.
Qed.

Lemma downgrade_succeeds_unless_compaction_waits_witness :
  let w q := mk_world state_ready 3%Z (Some [40%Z])
               (Some (mk_ds 0 [(0, 5%Z); (0, 40%Z)] 2 []))
               (mk_lock 0 true q []) ∅ ∅ 2 1 None [] in
  (∃ w', gc_fsm_t.do_replace_disk_structure false
           (w [(rwi_read, Some (lc_syncer 0)); (rwi_read, Some (lc_syncer 1))])
         = Done (tt, w')
     ∧ calls w' = [DsDestroy 0; DsCreate 1; DsAddEntry 1 0 40%Z; LockRelease;
                   LockAcquire rwi_read true; DsSync 1 cl_gc false])
  ∧ gc_fsm_t.do_replace_disk_structure false
      (w [(rwi_read, Some (lc_syncer 0)); (rwi_write, Some lc_gc)])
    = Abort AssertionFailure.
Proof.
  intros w. split.
  - destruct (downgrade_succeeds_unless_compaction_waits false
                (w [(rwi_read, Some (lc_syncer 0)); (rwi_read, Some (lc_syncer 1))])
                [40%Z] (mk_ds 0 [(0, 5%Z); (0, 40%Z)] 2 [])
                eq_refl eq_refl eq_refl eq_refl) as [H _].
    destruct H as (w' & H1 & H2 & _).
    + repeat constructor.
    + exists w'. split; assumption.
  - apply (downgrade_succeeds_unless_compaction_waits false
             (w [(rwi_read, Some (lc_syncer 0)); (rwi_write, Some lc_gc)])
             [40%Z] (mk_ds 0 [(0, 5%Z); (0, 40%Z)] 2 [])
             eq_refl eq_refl eq_refl eq_refl).
    apply Exists_cons_tl, Exists_cons_hd. reflexivity.
Defined.

(** ** Compaction and the offset table *)

Lemma deliver_keeps e w w' :
  loading w = None →
  deliver e w = Done (tt, w') →
  in_memory_index w' = in_memory_index w ∧ state w' = state w
  ∧ loading w' = loading w.
Proof.
  intros Hld H. destruct e as [i io|i|]; unfold deliver in H.
  - by apply keeps_index_deliver_lock_available in H.
  - by apply keeps_index_deliver_sync_done in H.
  - unfold deliver_load_done in H. rewrite bind_gets, Hld in H. done.
Qed.

Lemma step_keeps a w w' :
  loading w = None →
  changes_table a = false →
  step a w = Done (tt, w') →
  in_memory_index w' = in_memory_index w ∧ state w' = state w
  ∧ loading w' = loading w.
Proof.
  intros Hld Ha H. destruct a as [q|e]; [|by eapply deliver_keeps].
  destruct q as [|b o|b|cb r io_gc io|io]; try done;
    unfold step, serve_request in H.
  - apply bind_Done in H as (ok & w1 & E & [= <-]).
    by apply keeps_index_sync in E.
  - by apply keeps_index_gc in H.
Qed.

Lemma steps_keeps acts w w' :
  loading w = None →
  forallb (λ a, negb (changes_table a)) acts = true →
  steps acts w = Done (tt, w') →
  in_memory_index w' = in_memory_index w ∧ state w' = state w
  ∧ loading w' = loading w.
Proof.
  revert w. induction acts as [|a acts IH]; intros w Hld Ha H.
  - by injection H as <-.
  - cbn [forallb] in Ha. apply andb_true_iff in Ha as [Ha Hacts].
    apply negb_true_iff in Ha. cbn [steps] in H.
    apply bind_Done in H as ([] & w1 & H1 & H2).
    apply step_keeps in H1 as (E1 & E2 & E3); [|done..].
    apply IH in H2 as (-> & -> & ->); [done| congruence |done].
Qed.

Lemma get_block_offset_run b w :
  get_block_offset b w
  = if state_eqb (state w) state_ready then
      match in_memory_index w with
      | Some t => Done (in_memory_index_t.get_block_offset t b, w)
      | None => Abort NullDereference
      end
    else Abort AssertionFailure.
Proof.
  unfold get_block_offset, assert_state, with_index.
  rewrite !bind_bind, !bind_gets.
  destruct (state_eqb (state w) state_ready); cbn [assertion];
    [|by rewrite !bind_abort].
  rewrite !bind_ret, !bind_gets. by destruct (in_memory_index w).
Qed.

Lemma gen_block_id_run w :
  gen_block_id w
  = if state_eqb (state w) state_ready then
      match in_memory_index w with
      | Some t =>
          Done (length t,
                record (IndexGen (length t))
                  (set_in_memory_index (Some (t ++ [DELETE_BLOCK])) w))
      | None => Abort NullDereference
      end
    else Abort AssertionFailure.
Proof.
  unfold gen_block_id, assert_state, with_index.
  rewrite !bind_bind, !bind_gets.
  destruct (state_eqb (state w) state_ready); cbn [assertion];
    [|by rewrite !bind_abort].
  rewrite !bind_ret, !bind_gets. destruct (in_memory_index w); [|done].
  by mexec.
Qed.

Lemma get_block_offset_returned b w w' :
  in_memory_index w' = in_memory_index w → state w' = state w →
  returned (get_block_offset b w') = returned (get_block_offset b w).
Proof.
  intros Hi Hs. rewrite !get_block_offset_run, Hi, Hs.
  destruct (state_eqb (state w) state_ready); [|done].
  by destruct (in_memory_index w).
Qed.

Lemma gen_block_ids_returned k w w' :
  in_memory_index w' = in_memory_index w → state w' = state w →
  returned (gen_block_ids k w') = returned (gen_block_ids k w).
Proof.
  revert w w'. induction k as [|k IH]; intros w w' Hi Hs; [done|].
  cbn [gen_block_ids].
  destruct (gen_block_id w) as [[a v]|e] eqn:E; rewrite gen_block_id_run in E.
  - assert (∃ v', gen_block_id w' = Done (a, v')
              ∧ in_memory_index v' = in_memory_index v ∧ state v' = state v)
      as (v' & E' & Hi' & Hs').
    { rewrite gen_block_id_run, Hi, Hs.
      destruct (state_eqb (state w) state_ready); [|done].
      destruct (in_memory_index w); [|done].
      injection E as <- <-. eexists. split; [done|]. by cbn. }
    rewrite gen_block_id_run in E'.
    rewrite <- gen_block_id_run in E, E'.
    rewrite (bind_Done_eq _ _ _ _ _ E'), (bind_Done_eq _ _ _ _ _ E).
    specialize (IH v v' Hi' Hs').
    destruct (gen_block_ids k v') as [[ids' u']|] eqn:F',
      (gen_block_ids k v) as [[ids u]|] eqn:F; cbn [returned] in IH; try done.
    + rewrite (bind_Done_eq _ _ _ _ _ F'), (bind_Done_eq _ _ _ _ _ F).
      rewrite !run_ret. cbn. congruence.
    + rewrite (bind_Abort_eq _ _ _ _ F'), (bind_Abort_eq _ _ _ _ F). done.
  - assert (gen_block_id w' = Abort e) as E'.
    { rewrite gen_block_id_run, Hi, Hs.
      destruct (state_eqb (state w) state_ready); [|done].
      by destruct (in_memory_index w). }
    rewrite <- gen_block_id_run in E.
    by rewrite (bind_Abort_eq _ _ _ _ E'), (bind_Abort_eq _ _ _ _ E).
Qed.

(** X7: a compaction never changes the offset table.  From the call of
    [gc] to the end of the compaction, whatever other callbacks, syncs and
    compactions run in between (but no [set_block_offset], [delete_block] or
    [gen_block_id]), the table is the one it was: [get_block_offset] returns
    the same for every block, and [gen_block_id] hands out the same ids. *)
Theorem compaction_keeps_offset_table io acts w w1 w2 :
  loading w = None →
  gc io w = Done (tt, w1) →
  forallb (λ a, negb (changes_table a)) acts = true →
  steps acts w1 = Done (tt, w2) →
  in_memory_index w1 = in_memory_index w
  ∧ in_memory_index w2 = in_memory_index w
  ∧ (∀ b, returned (get_block_offset b w2) = returned (get_block_offset b w))
  ∧ (∀ k, returned (gen_block_ids k w2) = returned (gen_block_ids k w)).
Proof.
  intros Hld Hgc Hacts Hsteps.
  apply keeps_index_gc in Hgc as (E1 & E2 & E3).
  apply steps_keeps in Hsteps as (F1 & F2 & F3); [|congruence|done].
  split; [done|]. split; [congruence|].
  split; intros; [apply get_block_offset_returned|apply gen_block_ids_returned];
    congruence.
Qed.

Lemma compaction_keeps_offset_table_witness :
  let w := mk_world state_ready 3%Z (Some [DELETE_BLOCK; 40%Z])
             (Some (mk_ds 0 [(1, 7%Z); (1, 40%Z)] 0 []))
             rwi_lock_t.unlocked ∅ ∅ 0 1 None [] in
  ∃ w1 w2, gc false w = Done (tt, w1)
    ∧ steps [act_request (req_sync (Some 9) 0%Z false false);
             act_event (ev_sync_done 1); act_event (ev_sync_done 0)] w1
      = Done (tt, w2)
    ∧ in_memory_index w2 = Some [DELETE_BLOCK; 40%Z]
    ∧ returned (get_block_offset 1 w2) = Done 40%Z
    ∧ returned (gen_block_ids 2 w2) = Done [2; 3].
Proof.
  intros w.
  eassert (gc false w = Done (tt, _)) as E1 by (vm_compute; reflexivity).
  match type of E1 with
  | _ = Done (tt, ?w1) =>
      eassert (steps [act_request (req_sync (Some 9) 0%Z false false);
                      act_event (ev_sync_done 1); act_event (ev_sync_done 0)] w1
               = Done (tt, _)) as E2 by (vm_compute; reflexivity)
  end.
  destruct (compaction_keeps_offset_table false
              [act_request (req_sync (Some 9) 0%Z false false);
               act_event (ev_sync_done 1); act_event (ev_sync_done 0)]
              w _ _ eq_refl E1 eq_refl E2)
    as (_ & H2 & H3 & H4).
  eexists _, _. split; [exact E1|]. split; [exact E2|].
  split; [exact H2|].
  split; [rewrite H3|rewrite H4]; vm_compute; reflexivity.
Defined.

(** ** No update is lost across a compaction *)









Lemma replace_and_copy_Done w w' :
  replace_and_copy w = Done (tt, w') →
  ∃ t, in_memory_index w = Some t
    ∧ in_memory_index w' = Some t
    ∧ disk_structure w' = Some (mk_ds (next_gen w) (index_entries t) 0 [])
    ∧ ∃ g, calls w' = calls w ++ [DsDestroy g; DsCreate (next_gen w)]
                              ++ add_entry_calls (next_gen w) (index_entries t).
Proof.
  intros H. destruct w as [st fd idx ds lk sy sr nf ng ld cl].
  destruct ds as [d|]; [|done].
  destruct (decide (st = state_ready)) as [->|Hst].
  - destruct idx as [t|]; [|done].
    rewrite replace_and_copy_spec in H. injection H as <-.
    exists t. cbn. repeat split. by eexists.
  - exfalso. unfold replace_and_copy in H. cbn -[gc_fsm_t.copy_entries] in H.
    destruct (from_option length 0 idx); cbn in H; by destruct st.
Qed.

(** * Creation and shutdown *)

(** X1: [start(fd)], for a new database, is legal only in [unstarted]: it
    leaves a [ready] directory with an empty table and a new, empty disk
    structure, without touching the lock; in every other state, and so when
    it is called a second time, it fails its assertion, as does the [start]
    for an existing database. *)
Theorem start_creates_empty_directory w fd :
  (state w ≠ state_unstarted → start fd w = Abort AssertionFailure)
  ∧ (state w = state_unstarted →
     ∃ w', start fd w = Done (tt, w')
       ∧ state w' = state_ready
       ∧ dbfd w' = fd
       ∧ in_memory_index w' = Some []
       ∧ disk_structure w' = Some (mk_ds (next_gen w) [] 0 [])
       ∧ disk_structure_lock w' = disk_structure_lock w
       ∧ calls w' = calls w ++ [IndexCreate; DsCreate (next_gen w)]
       ∧ max_block_id w' = Done (0, w')
       ∧ (∀ fd', start fd' w' = Abort AssertionFailure)
       ∧ (∀ fd' mb cb io, start_existing fd' mb cb io w' = Abort AssertionFailure)).
Proof.
  split.
  - intros Hst. unfold start. apply bind_Abort_eq. by apply assert_state_fail.
  - intros Hst.
    destruct w as [st fd0 idx ds lk sy sr nf ng ld cl]; cbn in Hst; subst.
    unfold start. mexec. eexists. split; [reflexivity|].
    mflat. rewrite <- app_assoc. repeat split.
Qed.

Lemma start_creates_empty_directory_witness :
  ∃ w', start 3%Z lba_list_t_new = Done (tt, w')
    ∧ state w' = state_ready
    ∧ in_memory_index w' = Some []
    ∧ disk_structure w' = Some (mk_ds 0 [] 0 [])
    ∧ start 4%Z w' = Abort AssertionFailure.
Proof.
  destruct (start_creates_empty_directory lba_list_t_new 3%Z) as [_ H].
  destruct (H eq_refl) as (w' & H1 & H2 & _ & H4 & H5 & _ & _ & _ & H9 & _).
  exists w'. repeat split; [exact H1|exact H2|exact H4|exact H5|apply H9].
Defined.

(** X2: [shutdown] is legal only in [ready].  It releases the table, tells
    the disk structure to shut down, clears both pointers and moves to
    [shut_down], which is terminal: afterwards every operation that checks
    the state, [shutdown] itself and both forms of [start] included, fails
    its assertion, and the destructor is allowed.  The lock and the state
    machines that wait on it are left as they are. *)
Theorem shutdown_is_terminal w d :
  state w = state_ready →
  disk_structure w = Some d →
  ∃ w', shutdown w = Done (tt, w')
    ∧ state w' = state_shut_down
    ∧ in_memory_index w' = None
    ∧ disk_structure w' = None
    ∧ disk_structure_lock w' = disk_structure_lock w
    ∧ syncers w' = syncers w
    ∧ calls w' = calls w ++ [IndexRelease; DsShutdown (ds_gen d)]
    ∧ shutdown w' = Abort AssertionFailure
    ∧ (∀ fd, start fd w' = Abort AssertionFailure)
    ∧ (∀ fd mb cb io, start_existing fd mb cb io w' = Abort AssertionFailure)
    ∧ gen_block_id w' = Abort AssertionFailure
    ∧ (∀ b, get_block_offset b w' = Abort AssertionFailure)
    ∧ (∀ b o, set_block_offset b o w' = Abort AssertionFailure)
    ∧ (∀ cb r io_gc io, sync cb r io_gc io w' = Abort AssertionFailure)
    ∧ lba_list_t_delete w' = Done (tt, w').
Proof.
  intros Hst Hds.
  destruct w as [st fd0 idx ds lk sy sr nf ng ld cl]; cbn in Hst, Hds; subst.
  unfold shutdown. mexec. eexists. split; [reflexivity|].
  mflat. rewrite <- app_assoc. repeat split.
Qed.

Lemma shutdown_is_terminal_witness :
  ∃ w1 w2, start 3%Z lba_list_t_new = Done (tt, w1)
    ∧ shutdown w1 = Done (tt, w2)
    ∧ state w2 = state_shut_down
    ∧ calls w2 = [IndexCreate; DsCreate 0; IndexRelease; DsShutdown 0]
    ∧ shutdown w2 = Abort AssertionFailure
    ∧ lba_list_t_delete w2 = Done (tt, w2).
Proof.
  eassert (start 3%Z lba_list_t_new = Done (tt, _)) as E1
    by (vm_compute; reflexivity).
  match type of E1 with
  | _ = Done (tt, ?w1) =>
      destruct (shutdown_is_terminal w1 (mk_ds 0 [] 0 []) eq_refl eq_refl)
        as (w2 & H1 & H2 & _ & _ & _ & _ & H7 & H8 & _ & _ & _ & _ & _ & _ & H15)
  end.
  eexists _, w2. split; [exact E1|]. split; [exact H1|]. split; [exact H2|].
  split; [exact H7|]. split; [exact H8|exact H15].
Defined.

(** * The sync protocol *)

Ltac lock_simpl :=
  cbn [rwi_lock_t.lock rwi_lock_t.unlock rwi_lock_t.compatible rwi_lock_t.take
       rwi_lock_t.serve lk_readers lk_writer lk_queue lk_granted
       negb andb orb length Nat.eqb fst snd].

(** What a [sync] that starts no compaction does, by the state of the lock
    and of the flush. *)
Lemma sync_without_gc w d cb r io_gc io :
  state w = state_ready →
  disk_structure w = Some d →
  (r `rem` 5 =? 1)%Z = false →
  let s := next_fsm w in
  let l := disk_structure_lock w in
  let free := negb (lk_writer l) && (length (lk_queue l) =? 0) in
  ∃ w', sync cb r io_gc io w = Done (free && io, w')
    ∧ next_fsm w' = S s
    ∧ in_memory_index w' = in_memory_index w
    ∧ if free then
        if io then
          calls w' = calls w ++ [LockAcquire rwi_read true;
                                 DsSync (ds_gen d) (cl_syncer s) true;
                                 LockRelease]
          ∧ disk_structure w'
            = Some (mk_ds (ds_gen d) (ds_entries d) (length (ds_entries d))
                          (ds_pending d))
          ∧ disk_structure_lock w' = l
          ∧ syncers w' = delete s (syncers w)
        else
          calls w' = calls w ++ [LockAcquire rwi_read true;
                                 DsSync (ds_gen d) (cl_syncer s) false]
          ∧ disk_structure w'
            = Some (mk_ds (ds_gen d) (ds_entries d) (ds_flushed d)
                          (ds_pending d ++ [(length (ds_entries d), cl_syncer s)]))
          ∧ disk_structure_lock w' = rwi_lock_t.take rwi_read l
          ∧ syncers w' = <[s:=cb]> (syncers w)
      else
        calls w' = calls w ++ [LockAcquire rwi_read false]
        ∧ disk_structure w' = Some d
        ∧ disk_structure_lock w'
          = mk_lock (lk_readers l) (lk_writer l)
                    (lk_queue l ++ [(rwi_read, Some (lc_syncer s))])
                    (lk_granted l)
        ∧ syncers w' = <[s:=cb]> (syncers w).
Proof.
  intros Hst Hds Hr s l free. subst s l free.
  destruct w as [st fd0 idx ds [R W Q G] sy sr nf ng ld cl];
    cbn in Hst, Hds; subst.
  unfold sync, lba_syncer_t.create, lba_syncer_t.run,
    lba_syncer_t.set_callback, lba_syncer_t.do_acquire_lock,
    lba_syncer_t.do_write, lba_syncer_t.finish, lba_syncer_t.destroy,
    lba_syncer_t.callback.
  mexec. rewrite Hr. destruct d as [g es fl pe].
  destruct W, Q as [|q Q], io;
    repeat (progress (mexec; lock_simpl));
    (eexists; split; [reflexivity|]); mflat; lock_simpl;
    rewrite <- ?app_assoc; repeat split;
    by rewrite ?insert_insert_eq, ?delete_insert_eq.
Qed.

(** X3: a [sync] that does not start a compaction takes the lock in read
    mode and, once it has it, flushes the current disk structure.  It returns
    [true] exactly when the lock was free and the flush completed at once:
    then the lock is released again, every entry is durable, the syncer is
    deleted and the caller's callback is not called.  Otherwise it returns
    [false] with the syncer left waiting, for the flush (holding the lock in
    read mode) or for the lock (queued behind the other waiters), and with
    the caller's callback stored in it.  It never appends to the log. *)
Theorem sync_returns_true_iff_synchronous w d cb r io_gc io :
  state w = state_ready →
  disk_structure w = Some d →
  (r `rem` 5 =? 1)%Z = false →
  let s := next_fsm w in
  let l := disk_structure_lock w in
  let free := negb (lk_writer l) && (length (lk_queue l) =? 0) in
  ∃ w', sync cb r io_gc io w = Done (free && io, w')
    ∧ next_fsm w' = S s
    ∧ in_memory_index w' = in_memory_index w
    ∧ if free then
        if io then
          calls w' = calls w ++ [LockAcquire rwi_read true;
                                 DsSync (ds_gen d) (cl_syncer s) true;
                                 LockRelease]
          ∧ disk_structure w'
            = Some (mk_ds (ds_gen d) (ds_entries d) (length (ds_entries d))
                          (ds_pending d))
          ∧ disk_structure_lock w' = l
          ∧ syncers w' = delete s (syncers w)
        else
          calls w' = calls w ++ [LockAcquire rwi_read true;
                                 DsSync (ds_gen d) (cl_syncer s) false]
          ∧ disk_structure w'
            = Some (mk_ds (ds_gen d) (ds_entries d) (ds_flushed d)
                          (ds_pending d ++ [(length (ds_entries d), cl_syncer s)]))
          ∧ disk_structure_lock w' = rwi_lock_t.take rwi_read l
          ∧ syncers w' = <[s:=cb]> (syncers w)
      else
        calls w' = calls w ++ [LockAcquire rwi_read false]
        ∧ disk_structure w' = Some d
        ∧ disk_structure_lock w'
          = mk_lock (lk_readers l) (lk_writer l)
                    (lk_queue l ++ [(rwi_read, Some (lc_syncer s))])
                    (lk_granted l)
        ∧ syncers w' = <[s:=cb]> (syncers w).
Proof. apply sync_without_gc. Qed.

Lemma sync_returns_true_iff_synchronous_witness :
  let w held := mk_world state_ready 3%Z (Some [5%Z])
                  (Some (mk_ds 0 [(0, 5%Z)] 0 []))
                  (mk_lock 0 held [] []) ∅ ∅ 0 1 None [] in
  (∃ w', sync (Some 9) 0%Z false true (w false) = Done (true, w')
     ∧ calls w' = [LockAcquire rwi_read true; DsSync 0 (cl_syncer 0) true;
                   LockRelease]
     ∧ disk_structure w' = Some (mk_ds 0 [(0, 5%Z)] 1 []))
  ∧ (∃ w', sync (Some 9) 0%Z false false (w false) = Done (false, w')
     ∧ calls w' = [LockAcquire rwi_read true; DsSync 0 (cl_syncer 0) false])
  ∧ (∃ w', sync (Some 9) 0%Z false true (w true) = Done (false, w')
     ∧ calls w' = [LockAcquire rwi_read false]).
Proof.
  intros w.
  destruct (sync_returns_true_iff_synchronous (w false) (mk_ds 0 [(0, 5%Z)] 0 [])
              (Some 9) 0%Z false true eq_refl eq_refl eq_refl)
    as (w1 & H1 & _ & _ & H2 & H3 & _).
  destruct (sync_returns_true_iff_synchronous (w false) (mk_ds 0 [(0, 5%Z)] 0 [])
              (Some 9) 0%Z false false eq_refl eq_refl eq_refl)
    as (w2 & G1 & _ & _ & G2 & _).
  destruct (sync_returns_true_iff_synchronous (w true) (mk_ds 0 [(0, 5%Z)] 0 [])
              (Some 9) 0%Z false true eq_refl eq_refl eq_refl)
    as (w3 & F1 & _ & _ & F2 & _).
  split; [exists w1; repeat split; assumption|].
  split; [exists w2|exists w3]; split; assumption.
Defined.

(** X4: when the event loop calls a waiting syncer back, the syncer goes on
    where it stopped.  On [on_sync_lba] (its flush is complete) it releases
    the lock, then calls the caller's callback if the caller gave one, then
    deletes itself.  On [on_lock_available] it starts the flush of the disk
    structure that is current now, and finishes in the same way when that
    flush completes at once. *)
Theorem syncer_callbacks_finish_the_sync w d s cb :
  disk_structure w = Some d →
  syncers w !! s = Some cb →
  let l := disk_structure_lock w in
  let notify := match cb with Some c => [OnLbaSync c] | None => [] end in
  lk_writer l = false →
  (∀ i n R, ds_pending d !! i = Some (n, cl_syncer s) →
     lk_readers l = S R →
     ∃ w', deliver (ev_sync_done i) w = Done (tt, w')
       ∧ calls w' = calls w ++ LockRelease :: notify
       ∧ syncers w' = delete s (syncers w)
       ∧ disk_structure w'
         = Some (mk_ds (ds_gen d) (ds_entries d) (ds_flushed d `max` n)
                       (delete i (ds_pending d)))
       ∧ disk_structure_lock w'
         = rwi_lock_t.serve (lk_queue l)
             (mk_lock R false (lk_queue l) (lk_granted l)))
  ∧ (∀ i, lk_granted l !! i = Some (Some (lc_syncer s)) →
     ∃ w', deliver (ev_lock_available i false) w = Done (tt, w')
       ∧ calls w' = calls w ++ [DsSync (ds_gen d) (cl_syncer s) false]
       ∧ syncers w' = syncers w
       ∧ disk_structure w'
         = Some (mk_ds (ds_gen d) (ds_entries d) (ds_flushed d)
                       (ds_pending d ++ [(length (ds_entries d), cl_syncer s)]))
       ∧ disk_structure_lock w'
         = mk_lock (lk_readers l) false (lk_queue l) (delete i (lk_granted l)))
  ∧ (∀ i R, lk_granted l !! i = Some (Some (lc_syncer s)) →
     lk_readers l = S R →
     ∃ w', deliver (ev_lock_available i true) w = Done (tt, w')
       ∧ calls w' = calls w ++ DsSync (ds_gen d) (cl_syncer s) true
                            :: LockRelease :: notify
       ∧ syncers w' = delete s (syncers w)
       ∧ disk_structure w'
         = Some (mk_ds (ds_gen d) (ds_entries d) (length (ds_entries d))
                       (ds_pending d))
       ∧ disk_structure_lock w'
         = rwi_lock_t.serve (lk_queue l)
             (mk_lock R false (lk_queue l) (delete i (lk_granted l)))).
Proof.
  intros Hds Hs l notify HW. subst l notify.
  destruct w as [st fd0 idx ds [R0 W Q G] sy sr nf ng ld cl];
    cbn in Hds, Hs, HW; subst.
  destruct d as [g es fl pe].
  unfold deliver, deliver_sync_done, deliver_lock_available,
    lba_syncer_t.on_sync_lba, lba_syncer_t.on_lock_available,
    lba_syncer_t.do_write, lba_syncer_t.finish, lba_syncer_t.destroy,
    lba_syncer_t.callback.
  mflat. lock_simpl. cbn [ds_gen ds_entries ds_flushed ds_pending].
  split; [|split].
  - intros i n R Hi ->. mexec. rewrite Hi. mexec.
    unfold rwi_lock_t.unlock. lock_simpl. mexec. rewrite Hs.
    destruct cb as [c|]; mexec; rewrite Hs; mexec;
      (eexists; split; [reflexivity|]); mflat; rewrite <- ?app_assoc;
      repeat split.
  - intros i Hi. mexec. rewrite Hi. mexec.
    eexists. split; [reflexivity|]. mflat. repeat split.
  - intros i R Hi ->. mexec. rewrite Hi. mexec.
    unfold rwi_lock_t.unlock. lock_simpl. mexec. rewrite Hs.
    destruct cb as [c|]; mexec; rewrite Hs; mexec;
      (eexists; split; [reflexivity|]); mflat; rewrite <- ?app_assoc;
      repeat split.
Qed.

Lemma syncer_callbacks_finish_the_sync_witness :
  let w := mk_world state_ready 3%Z (Some [5%Z])
             (Some (mk_ds 0 [(0, 5%Z)] 0 [(1, cl_syncer 0)]))
             (mk_lock 1 false [] []) {[0 := Some 9]} ∅ 1 1 None [] in
  ∃ w', deliver (ev_sync_done 0) w = Done (tt, w')
    ∧ calls w' = [LockRelease; OnLbaSync 9]
    ∧ syncers w' = delete 0 {[0 := Some 9]}
    ∧ disk_structure w' = Some (mk_ds 0 [(0, 5%Z)] 1 [])
    ∧ disk_structure_lock w' = rwi_lock_t.unlocked.
Proof.
  intros w.
  destruct (syncer_callbacks_finish_the_sync w
              (mk_ds 0 [(0, 5%Z)] 0 [(1, cl_syncer 0)]) 0 (Some 9)
              eq_refl eq_refl eq_refl) as [H _].
  destruct (H 0 1 0 eq_refl eq_refl) as (w' & H1 & H2 & H3 & H4 & H5).
  exists w'. repeat split; assumption.
Defined.

(** * Compaction and the lock *)

(** X5: a compaction that does not get the lock at once (a writer holds it,
    readers hold it, or somebody waits already) only joins the queue in
    write mode: [gc] returns with the disk structure, the table and the state
    machines as they were, and nothing is destroyed, created or copied until
    the lock calls it back. *)
Theorem gc_waits_for_a_busy_lock io w :
  let l := disk_structure_lock w in
  lk_writer l = true ∨ lk_readers l ≠ 0 ∨ lk_queue l ≠ [] →
  gc io w
  = Done (tt,
      record (LockAcquire rwi_write false)
        (set_disk_structure_lock
           (mk_lock (lk_readers l) (lk_writer l)
                    (lk_queue l ++ [(rwi_write, Some lc_gc)]) (lk_granted l))
           w)).
Proof.
  intros l Hbusy. subst l.
  destruct w as [st fd0 idx ds [R W Q G] sy sr nf ng ld cl]; cbn in Hbusy.
  unfold gc, gc_fsm_t.create. mexec. mflat.
  assert (rwi_lock_t.lock rwi_write (Some lc_gc) (mk_lock R W Q G)
          = (false, mk_lock R W (Q ++ [(rwi_write, Some lc_gc)]) G)) as ->.
  { unfold rwi_lock_t.lock, rwi_lock_t.compatible. lock_simpl.
    destruct W; [done|]. destruct R; [|done].
    destruct Q; [|done]. by destruct Hbusy as [?|[?|?]]. }
  by mexec.
Qed.

Lemma gc_waits_for_a_busy_lock_witness :
  let w := mk_world state_ready 3%Z (Some [5%Z])
             (Some (mk_ds 0 [(0, 5%Z)] 0 [(1, cl_syncer 0)]))
             (mk_lock 1 false [] []) {[0 := Some 9]} ∅ 1 1 None [] in
  gc true w
  = Done (tt, mk_world state_ready 3%Z (Some [5%Z])
                (Some (mk_ds 0 [(0, 5%Z)] 0 [(1, cl_syncer 0)]))
                (mk_lock 1 false [(rwi_write, Some lc_gc)] [])
                {[0 := Some 9]} ∅ 1 1 None [LockAcquire rwi_write false]).
Proof.
  intros w.
  apply (gc_waits_for_a_busy_lock true w). right. left. discriminate.
Defined.

(** X6: nothing stops [shutdown] while a state machine still waits for the
    lock, and the state machine does not check the state when the lock calls
    it back: a waiting compaction then calls [destroy] through the [NULL]
    [disk_structure] pointer, and a waiting syncer calls [sync] through
    it. *)
Theorem shutdown_strands_waiting_state_machines w w' io :
  shutdown w = Done (tt, w') →
  gc_fsm_t.on_lock_available io w' = Abort NullDereference
  ∧ (∀ s, lba_syncer_t.on_lock_available s io w' = Abort NullDereference)
  ∧ (∀ i c, lk_granted (disk_structure_lock w) !! i = Some (Some c) →
       deliver (ev_lock_available i io) w' = Abort NullDereference).
Proof.
  intros Hsh.
  destruct w as [st fd0 idx ds lk sy sr nf ng ld cl].
  unfold shutdown in Hsh. revert Hsh. mexec. mflat.
  destruct st; mexec; try done.
  destruct ds as [d|]; mexec; [|done]. intros [= <-].
  unfold deliver, deliver_lock_available, lba_syncer_t.on_lock_available,
    lba_syncer_t.do_write, gc_fsm_t.on_lock_available,
    gc_fsm_t.do_replace_disk_structure.
  mflat. split; [|split].
  - by mexec.
  - intros s. by mexec.
  - intros i c Hi. mexec. rewrite Hi. destruct c; by mexec.
Qed.

Lemma shutdown_strands_waiting_state_machines_witness :
  let w := mk_world state_ready 3%Z (Some [5%Z])
             (Some (mk_ds 0 [(0, 5%Z)] 1 []))
             (mk_lock 0 true [] [Some lc_gc]) ∅ ∅ 0 1 None [] in
  ∃ w', shutdown w = Done (tt, w')
    ∧ deliver (ev_lock_available 0 true) w' = Abort NullDereference.
Proof.
  intros w.
  eassert (shutdown w = Done (tt, _)) as E by (vm_compute; reflexivity).
  eexists. split; [exact E|].
  destruct (shutdown_strands_waiting_state_machines w _ true E) as (_ & _ & H).
  apply (H 0 lc_gc). reflexivity.
Defined.

(** * Durability *)

Lemma preserves_ret P {A} (a : A) : preserves P (mret a).
Proof. by intros w a' w' HP [= <- <-]. Qed.

Lemma preserves_bind P {A B} (m : M A) (f : A → M B) :
  preserves P m → (∀ a, preserves P (f a)) → preserves P (m ≫= f).
Proof.
  intros Hm Hf w b w' HP (a & w1 & H1 & H2)%bind_Done.
  eapply Hf; [|done]. by eapply Hm.
Qed.

Lemma preserves_gets P {A} (f : world → A) : preserves P (gets f).
Proof. by intros w a' w' HP [= <- <-]. Qed.

Lemma preserves_abort P {A} e : preserves P (abort (A:=A) e).
Proof. by intros w a' w' HP. Qed.

Lemma preserves_modify P f : (∀ w, P w → P (f w)) → preserves P (modify f).
Proof. intros Hf w a' w' HP [= _ <-]. by apply Hf. Qed.

Lemma preserves_assertion P b : preserves P (assertion b).
Proof. destruct b; [apply preserves_ret|apply preserves_abort]. Qed.

Lemma preserves_and P Q {A} (m : M A) :
  preserves P m → preserves Q m → preserves (λ w, P w ∧ Q w) m.
Proof. intros HP HQ w a w' [H1 H2] Hm. split; [by eapply HP|by eapply HQ]. Qed.

(** Properties of the table, the log and the load in flight: they are kept
    by what changes the other fields, and by a flush when it is started for a
    client that the property admits. *)
Section log_properties.
Variable P : world → Prop.
Variable admits : sync_client → Prop.
Hypothesis P_log : ∀ w c, P w → P (record c w).
Hypothesis P_lock : ∀ w l, P w → P (set_disk_structure_lock l w).
Hypothesis P_syncers : ∀ w m, P w → P (set_syncers m w).
Hypothesis P_sync : ∀ w d c io, admits c → P w → disk_structure w = Some d →
  P (set_disk_structure
       (Some (if io : bool then
                mk_ds (ds_gen d) (ds_entries d) (length (ds_entries d))
                      (ds_pending d)
              else
                mk_ds (ds_gen d) (ds_entries d) (ds_flushed d)
                      (ds_pending d ++ [(length (ds_entries d), c)])))
       (record (DsSync (ds_gen d) c io) w)).

Lemma preserves_log c : preserves P (log c).
Proof. apply preserves_modify. intros w. apply P_log. Qed.

Lemma preserves_lock_lock a cb : preserves P (lock_lock a cb).
Proof.
  unfold lock_lock. apply preserves_bind; [apply preserves_gets|intros l].
  cbv zeta. apply preserves_bind; [|intros ?].
  { apply preserves_modify. intros w. apply P_lock. }
  apply preserves_bind; [apply preserves_log|intros ?]. apply preserves_ret.
Qed.

Lemma preserves_lock_unlock : preserves P lock_unlock.
Proof.
  unfold lock_unlock. apply preserves_bind; [apply preserves_gets|intros l].
  destruct (rwi_lock_t.unlock l); [|apply preserves_abort].
  apply preserves_bind; [|intros ?; apply preserves_log].
  apply preserves_modify. intros w. apply P_lock.
Qed.

Lemma preserves_ds_sync c io : admits c → preserves P (ds_sync c io).
Proof.
  intros Hc w a w' HP. unfold ds_sync, with_ds. rewrite bind_gets.
  destruct (disk_structure w) as [d|] eqn:Hd; [|done].
  unfold log. rewrite bind_modify.
  pose proof (P_sync w d c io Hc HP Hd) as HP'.
  destruct io; rewrite bind_modify, run_ret; by intros [= _ <-].
Qed.

Lemma preserves_syncer_finish s : preserves P (lba_syncer_t.finish s).
Proof.
  unfold lba_syncer_t.finish, lba_syncer_t.destroy, lba_syncer_t.callback.
  apply preserves_bind; [apply preserves_lock_unlock|intros ?].
  apply preserves_bind; [|intros cb].
  { apply preserves_bind; [apply preserves_gets|intros m].
    destruct (m !! s); [apply preserves_ret|apply preserves_abort]. }
  apply preserves_bind; [|intros ?].
  { destruct cb; [apply preserves_log|apply preserves_ret]. }
  apply preserves_bind; [|intros ?; apply preserves_ret].
  apply preserves_bind; [|intros ?].
  { apply preserves_bind; [apply preserves_gets|intros m].
    destruct (m !! s); [apply preserves_ret|apply preserves_abort]. }
  apply preserves_modify. intros w. apply P_syncers.
Qed.

Lemma preserves_syncer_do_write s io :
  admits (cl_syncer s) → preserves P (lba_syncer_t.do_write s io).
Proof.
  intros Hc. unfold lba_syncer_t.do_write.
  apply preserves_bind; [apply preserves_ds_sync; exact Hc|intros done].
  destruct done; [apply preserves_syncer_finish|apply preserves_ret].
Qed.

Lemma preserves_downgrade_and_sync io :
  admits cl_gc → preserves P (downgrade_and_sync io).
Proof.
  intros Hc. unfold downgrade_and_sync, gc_fsm_t.do_cleanup.
  apply preserves_bind; [apply preserves_lock_unlock|intros ?].
  apply preserves_bind; [apply preserves_lock_lock|intros ok].
  apply preserves_bind; [apply preserves_assertion|intros ?].
  apply preserves_bind; [apply preserves_ds_sync; exact Hc|intros done].
  destruct done; [apply preserves_lock_unlock|apply preserves_ret].
Qed.
End log_properties.

(** Properties of the state machine objects: a compaction keeps them. *)
Section compaction_frame.
Variable P : world → Prop.
Hypothesis P_log : ∀ w c, P w → P (record c w).
Hypothesis P_lock : ∀ w l, P w → P (set_disk_structure_lock l w).
Hypothesis P_disk : ∀ w d, P w → P (set_disk_structure d w).
Hypothesis P_gen : ∀ w n, P w → P (set_next_gen n w).

Lemma frame_log c : preserves P (log c).
Proof. apply preserves_modify. intros w. apply P_log. Qed.

Lemma frame_with_ds {A} (f : lba_disk_structure_t → M A) :
  (∀ d, preserves P (f d)) → preserves P (with_ds f).
Proof.
  intros Hf. unfold with_ds. apply preserves_bind; [apply preserves_gets|].
  intros [d|]; [apply Hf|apply preserves_abort].
Qed.

Lemma frame_ds_add_entry b o : preserves P (ds_add_entry b o).
Proof.
  apply frame_with_ds. intros d.
  apply preserves_bind; [|intros ?; apply frame_log].
  apply preserves_modify. intros w. apply P_disk.
Qed.

Lemma frame_ds_sync c io : preserves P (ds_sync c io).
Proof.
  apply frame_with_ds. intros d.
  apply preserves_bind; [apply frame_log|intros ?].
  destruct io; (apply preserves_bind; [|intros ?; apply preserves_ret]);
    apply preserves_modify; intros w; apply P_disk.
Qed.

Lemma frame_lock_lock a cb : preserves P (lock_lock a cb).
Proof.
  unfold lock_lock. apply preserves_bind; [apply preserves_gets|intros l].
  cbv zeta. apply preserves_bind; [|intros ?].
  { apply preserves_modify. intros w. apply P_lock. }
  apply preserves_bind; [apply frame_log|intros ?]. apply preserves_ret.
Qed.

Lemma frame_lock_unlock : preserves P lock_unlock.
Proof.
  unfold lock_unlock. apply preserves_bind; [apply preserves_gets|intros l].
  destruct (rwi_lock_t.unlock l); [|apply preserves_abort].
  apply preserves_bind; [|intros ?; apply frame_log].
  apply preserves_modify. intros w. apply P_lock.
Qed.

Lemma frame_assert_state s : preserves P (assert_state s).
Proof.
  unfold assert_state. apply preserves_bind; [apply preserves_gets|intros ?].
  apply preserves_assertion.
Qed.

Lemma frame_copy_entries n id : preserves P (gc_fsm_t.copy_entries n id).
Proof.
  revert id. induction n as [|n IH]; intros id; cbn [gc_fsm_t.copy_entries];
    (apply preserves_bind; [|intros m; destruct (id <? m)]);
    try apply preserves_ret; try apply preserves_abort;
    try (unfold max_block_id, with_index;
         apply preserves_bind; [apply frame_assert_state|intros ?];
         apply preserves_bind; [apply preserves_gets|intros [t|]];
         [apply preserves_ret|apply preserves_abort]).
  apply preserves_bind; [|intros o].
  { unfold get_block_offset, with_index.
    apply preserves_bind; [apply frame_assert_state|intros ?].
    apply preserves_bind; [apply preserves_gets|intros [t|]];
      [apply preserves_ret|apply preserves_abort]. }
  apply preserves_bind; [apply frame_ds_add_entry|intros ?]. apply IH.
Qed.

Lemma frame_do_replace io : preserves P (gc_fsm_t.do_replace_disk_structure io).
Proof.
  unfold gc_fsm_t.do_replace_disk_structure, gc_fsm_t.do_cleanup.
  apply preserves_bind; [|intros ?].
  { apply frame_with_ds. intros d. apply frame_log. }
  apply preserves_bind; [|intros ?].
  { unfold ds_create. apply preserves_bind; [apply preserves_gets|intros g].
    apply preserves_bind; [apply preserves_modify; intros w; apply P_gen|intros ?].
    apply preserves_bind; [apply preserves_modify; intros w; apply P_disk|intros ?].
    apply frame_log. }
  apply preserves_bind; [apply preserves_gets|intros n].
  apply preserves_bind; [apply frame_copy_entries|intros ?].
  apply preserves_bind; [apply frame_lock_unlock|intros ?].
  apply preserves_bind; [apply frame_lock_lock|intros ok].
  apply preserves_bind; [apply preserves_assertion|intros ?].
  apply preserves_bind; [apply frame_ds_sync|intros done].
  destruct done; [apply frame_lock_unlock|apply preserves_ret].
Qed.

Lemma frame_gc io : preserves P (gc io).
Proof.
  unfold gc, gc_fsm_t.create.
  apply preserves_bind; [apply frame_lock_lock|intros ok].
  destruct ok; [apply frame_do_replace|apply preserves_ret].
Qed.
End compaction_frame.

(** A compaction allocates and deletes no syncer. *)
Lemma gc_keeps_syncers io w w' :
  gc io w = Done (tt, w') →
  syncers w' = syncers w ∧ next_fsm w' = next_fsm w.
Proof.
  intros H.
  by apply (frame_gc (λ v, syncers v = syncers w ∧ next_fsm v = next_fsm w))
    in H; try (by intros []).
Qed.

Lemma do_replace_keeps_syncers io w w' :
  gc_fsm_t.do_replace_disk_structure io w = Done (tt, w') →
  syncers w' = syncers w ∧ next_fsm w' = next_fsm w.
Proof.
  intros H.
  by apply (frame_do_replace
              (λ v, syncers v = syncers w ∧ next_fsm v = next_fsm w))
    in H; try (by intros []).
Qed.

(** ** Replaying a log *)

Lemma replay_snoc es b o :
  in_memory_index_t.replay (es ++ [(b, o)])
  = in_memory_index_t.set_block_offset (in_memory_index_t.replay es) b o.
Proof. unfold in_memory_index_t.replay. by rewrite foldl_app. Qed.

Lemma index_set_at_end (t : list Z) o :
  in_memory_index_t.set_block_offset t (length t) o = t ++ [o].
Proof.
  unfold in_memory_index_t.set_block_offset.
  replace (S (length t) - length t) with 1 by lia. cbn [replicate].
  replace (length t) with (length t + 0) at 1 by lia.
  by rewrite insert_app_r.
Qed.

Lemma replay_index_entries_from (t : list Z) k :
  k ≤ length t →
  foldl (λ t e, in_memory_index_t.set_block_offset t e.1 e.2) (take k t)
        (index_entries_from k t) = t.
Proof.
  intros Hk. remember (length t - k) as m eqn:Hm.
  revert k Hk Hm. induction m as [|m IH]; intros k Hk Hm.
  - rewrite index_entries_from_ge by lia. cbn. apply take_ge. lia.
  - rewrite index_entries_from_lt by lia. cbn [foldl fst snd].
    destruct (lookup_lt_is_Some_2 t k) as [x Hx]; [lia|].
    unfold in_memory_index_t.get_block_offset at 1. rewrite Hx. cbn [default].
    change (id x) with x.
    assert (in_memory_index_t.set_block_offset (take k t) k x = take (S k) t)
      as ->.
    { rewrite (take_S_r t k x Hx), <- (index_set_at_end (take k t) x).
      f_equal. rewrite length_take. apply lookup_lt_Some in Hx. lia. }
    apply IH; [|lia]. by apply lookup_lt_Some in Hx.
Qed.

(** The entries that a compaction copies replay to the table they were
    copied from. *)
Lemma replay_index_entries (t : list Z) :
  in_memory_index_t.replay (index_entries t) = t.
Proof. apply (replay_index_entries_from t 0). lia. Qed.

(** ** What a compaction and the callbacks keep *)

Section compaction_properties.
Variable P : world → Prop.
Variable admits : sync_client → Prop.
Hypothesis P_log : ∀ w c, P w → P (record c w).
Hypothesis P_lock : ∀ w l, P w → P (set_disk_structure_lock l w).
Hypothesis P_syncers : ∀ w m, P w → P (set_syncers m w).
Hypothesis P_sync : ∀ w d c io, admits c → P w → disk_structure w = Some d →
  P (set_disk_structure
       (Some (if io : bool then
                mk_ds (ds_gen d) (ds_entries d) (length (ds_entries d))
                      (ds_pending d)
              else
                mk_ds (ds_gen d) (ds_entries d) (ds_flushed d)
                      (ds_pending d ++ [(length (ds_entries d), c)])))
       (record (DsSync (ds_gen d) c io) w)).
Hypothesis P_replace : ∀ w w1, P w → replace_and_copy w = Done (tt, w1) → P w1.
Hypothesis admits_gc : admits cl_gc.

Lemma preserves_do_replace io :
  preserves P (gc_fsm_t.do_replace_disk_structure io).
Proof.
  intros w [] w' HP H. rewrite do_replace_split in H.
  apply bind_Done in H as ([] & w1 & H1 & H2).
  eapply (preserves_downgrade_and_sync P admits P_log P_lock P_sync io admits_gc);
    [|exact H2].
  by eapply P_replace.
Qed.

Lemma preserves_gc io : preserves P (gc io).
Proof.
  unfold gc, gc_fsm_t.create.
  apply preserves_bind; [by apply (preserves_lock_lock P)|intros ok].
  destruct ok; [apply preserves_do_replace|apply preserves_ret].
Qed.
End compaction_properties.

Lemma keeps_index_replace_and_copy : keeps_index replace_and_copy.
Proof. unfold replace_and_copy. keeps_go. Qed.

Lemma consistent_fields w w' :
  loading w' = loading w → in_memory_index w' = in_memory_index w →
  disk_structure w' = disk_structure w → consistent w → consistent w'.
Proof. unfold consistent. by intros -> -> ->. Qed.

Lemma flush_covers_log_fields s w w' :
  disk_structure w' = disk_structure w →
  flush_covers_log s w → flush_covers_log s w'.
Proof. unfold flush_covers_log. by intros ->. Qed.

Lemma no_flush_of_fields s w w' :
  disk_structure w' = disk_structure w → no_flush_of s w → no_flush_of s w'.
Proof. unfold no_flush_of. by intros ->. Qed.

Lemma consistent_sync w d c io :
  consistent w → disk_structure w = Some d →
  consistent
    (set_disk_structure
       (Some (if io : bool then
                mk_ds (ds_gen d) (ds_entries d) (length (ds_entries d))
                      (ds_pending d)
              else
                mk_ds (ds_gen d) (ds_entries d) (ds_flushed d)
                      (ds_pending d ++ [(length (ds_entries d), c)])))
       (record (DsSync (ds_gen d) c io) w)).
Proof.
  intros (Hld & t & d' & Ht & Hd' & Hr & Hf & Hp) Hd.
  assert (d' = d) as -> by congruence.
  destruct w; cbn in *. split; [done|].
  exists t. eexists. split; [done|]. split; [done|].
  destruct io; cbn; (split; [done|]); (split; [done|]); [done|].
  apply Forall_app. split; [done|]. by apply Forall_singleton.
Qed.

Lemma flush_covers_log_sync s w d c io :
  flush_covers_log s w → disk_structure w = Some d →
  flush_covers_log s
    (set_disk_structure
       (Some (if io : bool then
                mk_ds (ds_gen d) (ds_entries d) (length (ds_entries d))
                      (ds_pending d)
              else
                mk_ds (ds_gen d) (ds_entries d) (ds_flushed d)
                      (ds_pending d ++ [(length (ds_entries d), c)])))
       (record (DsSync (ds_gen d) c io) w)).
Proof.
  intros Hc Hd d' n Hd' Hin. destruct w; cbn in *.
  injection Hd' as <-. destruct io; cbn in *; [by eapply Hc|].
  apply elem_of_app in Hin as [Hin|Hin]; [by eapply Hc|].
  apply list_elem_of_singleton in Hin. congruence.
Qed.

Lemma no_flush_of_sync s w d c io :
  c ≠ cl_syncer s →
  no_flush_of s w → disk_structure w = Some d →
  no_flush_of s
    (set_disk_structure
       (Some (if io : bool then
                mk_ds (ds_gen d) (ds_entries d) (length (ds_entries d))
                      (ds_pending d)
              else
                mk_ds (ds_gen d) (ds_entries d) (ds_flushed d)
                      (ds_pending d ++ [(length (ds_entries d), c)])))
       (record (DsSync (ds_gen d) c io) w)).
Proof.
  intros Hne Hc Hd d' n Hd' Hin. destruct w; cbn in *.
  injection Hd' as <-. destruct io; cbn in *; [by eapply Hc|].
  apply elem_of_app in Hin as [Hin|Hin]; [by eapply Hc|].
  apply list_elem_of_singleton in Hin. congruence.
Qed.

(** After the replace step and the copy loop, the new log replays to the
    table and no flush is in flight. *)
Lemma replace_and_copy_consistent w w1 :
  loading w = None →
  replace_and_copy w = Done (tt, w1) →
  consistent w1 ∧ ∀ s, no_flush_of s w1.
Proof.
  intros Hld H.
  pose proof (keeps_index_replace_and_copy _ _ _ H) as (_ & _ & Hld1).
  apply replace_and_copy_Done in H as (t & Ht & Ht1 & Hd1 & _).
  split.
  - split; [congruence|]. exists t. eexists. split; [done|]. split; [done|].
    cbn. split; [apply replay_index_entries|]. split; [lia|constructor].
  - intros s d n Hd. rewrite Hd1 in Hd. injection Hd as <-. cbn.
    apply not_elem_of_nil.
Qed.

Lemma no_flush_covers s w : no_flush_of s w → flush_covers_log s w.
Proof. intros H d n Hd Hin. by destruct (H d n Hd). Qed.

(** A compaction keeps the table and the log in agreement. *)
Lemma do_replace_consistent s io :
  preserves (λ w, consistent w ∧ flush_covers_log s w)
    (gc_fsm_t.do_replace_disk_structure io).
Proof.
  apply (preserves_do_replace _ (λ _, True)).
  - intros w c [? ?]. split; [by eapply consistent_fields|
                              by eapply flush_covers_log_fields].
  - intros w l [? ?]. split; [by eapply consistent_fields|
                              by eapply flush_covers_log_fields].
  - intros w d c io' _ [? ?] Hd.
    split; [by apply consistent_sync|by apply flush_covers_log_sync].
  - intros w w1 [[Hld _] _] H.
    apply replace_and_copy_consistent in H as [? Hn]; [|done].
    split; [done|]. apply no_flush_covers, Hn.
  - done.
Qed.

Lemma gc_consistent s io :
  preserves (λ w, consistent w ∧ no_flush_of s w) (gc io).
Proof.
  apply (preserves_gc _ (λ c, c ≠ cl_syncer s)).
  - intros w c [? ?]. split; [by eapply consistent_fields|
                              by eapply no_flush_of_fields].
  - intros w l [? ?]. split; [by eapply consistent_fields|
                              by eapply no_flush_of_fields].
  - intros w d c io' Hc [? ?] Hd.
    split; [by apply consistent_sync|by apply no_flush_of_sync].
  - intros w w1 [[Hld _] _] H.
    apply replace_and_copy_consistent in H as [? Hn]; [|done].
    split; [done|]. apply Hn.
  - done.
Qed.

(** ** While a sync is in progress *)

Lemma sync_in_progress_log s w c :
  sync_in_progress s w → sync_in_progress s (record c w).
Proof.
  intros [? ?]. split; [by eapply consistent_fields|
                        by eapply flush_covers_log_fields].
Qed.

Lemma sync_in_progress_lock s w l :
  sync_in_progress s w → sync_in_progress s (set_disk_structure_lock l w).
Proof.
  intros [? ?]. split; [by eapply consistent_fields|
                        by eapply flush_covers_log_fields].
Qed.

Lemma sync_in_progress_syncers s w m :
  sync_in_progress s w → sync_in_progress s (set_syncers m w).
Proof.
  intros [? ?]. split; [by eapply consistent_fields|
                        by eapply flush_covers_log_fields].
Qed.

Lemma sync_in_progress_sync s w d c io :
  True → sync_in_progress s w → disk_structure w = Some d →
  sync_in_progress s
    (set_disk_structure
       (Some (if io : bool then
                mk_ds (ds_gen d) (ds_entries d) (length (ds_entries d))
                      (ds_pending d)
              else
                mk_ds (ds_gen d) (ds_entries d) (ds_flushed d)
                      (ds_pending d ++ [(length (ds_entries d), c)])))
       (record (DsSync (ds_gen d) c io) w)).
Proof.
  intros _ [? ?] Hd.
  split; [by apply consistent_sync|by apply flush_covers_log_sync].
Qed.

(** The completion of a flush makes durable what the flush covers. *)
Lemma sync_in_progress_flushed s w d i n c :
  sync_in_progress s w → disk_structure w = Some d →
  ds_pending d !! i = Some (n, c) →
  sync_in_progress s
    (set_disk_structure
       (Some (mk_ds (ds_gen d) (ds_entries d) (ds_flushed d `max` n)
                    (delete i (ds_pending d)))) w).
Proof.
  intros [(Hld & t & d' & Ht & Hd' & Hr & Hf & Hp) Hc] Hd Hi.
  assert (d' = d) as -> by congruence.
  assert (n ≤ length (ds_entries d)) as Hn.
  { by apply (Forall_lookup_1 _ _ _ _ Hp Hi). }
  destruct w; cbn in *. split.
  - split; [done|]. exists t. eexists. split; [done|]. split; [done|].
    cbn. split; [done|]. split; [lia|].
    apply Forall_forall. intros p Hin. rewrite Forall_forall in Hp. apply Hp.
    eapply elem_of_sublist; [done|]. apply sublist_delete.
  - intros d' n' [= <-]. cbn. intros Hin. eapply Hc; [done|].
    eapply elem_of_sublist; [done|]. apply sublist_delete.
Qed.

Lemma deliver_sync_in_progress s e :
  preserves (sync_in_progress s) (deliver e).
Proof.
  pose proof (sync_in_progress_log s) as Hlog.
  pose proof (sync_in_progress_lock s) as Hlock.
  pose proof (sync_in_progress_syncers s) as Hsy.
  pose proof (sync_in_progress_sync s) as Hsync.
  destruct e as [i io|i|]; unfold deliver.
  - unfold deliver_lock_available.
    apply preserves_bind; [apply preserves_gets|intros l].
    destruct (lk_granted l !! i) as [cb|]; [|apply preserves_abort].
    apply preserves_bind; [apply preserves_modify; intros w; apply Hlock|].
    intros _. destruct cb as [[s'|]|]; [| |apply preserves_abort].
    + unfold lba_syncer_t.on_lock_available.
      apply preserves_bind; [|intros ?; apply preserves_ret].
      by apply (preserves_syncer_do_write _ (λ _, True)).
    + apply do_replace_consistent.
  - intros w a w' HP. unfold deliver_sync_done. rewrite bind_gets.
    destruct (disk_structure w) as [d|] eqn:Hd; [|done].
    destruct (ds_pending d !! i) as [[n c]|] eqn:Hi; [|done].
    rewrite bind_modify.
    pose proof (sync_in_progress_flushed s w d i n c HP Hd Hi) as HP'.
    revert HP'. generalize (set_disk_structure
       (Some (mk_ds (ds_gen d) (ds_entries d) (ds_flushed d `max` n)
                    (delete i (ds_pending d)))) w). intros w1 HP1.
    destruct c as [s'|].
    + unfold lba_syncer_t.on_sync_lba. intros H.
      apply bind_Done in H as (b & w2 & H & [= _ <-]).
      by eapply (preserves_syncer_finish _ Hlog Hlock Hsy) in H.
    + unfold gc_fsm_t.on_sync_lba, gc_fsm_t.do_cleanup. intros H.
      by eapply (preserves_lock_unlock _ Hlog Hlock) in H.
  - intros w a w' [[Hld _] _]. unfold deliver_load_done.
    by rewrite bind_gets, Hld.
Qed.

Lemma deliver_all_sync_in_progress s es :
  preserves (sync_in_progress s) (deliver_all es).
Proof.
  induction es as [|e es IH]; cbn [deliver_all]; [apply preserves_ret|].
  apply preserves_bind; [apply deliver_sync_in_progress|by intros _].
Qed.

(** ** Mapping changes and recovery *)

Lemma mapping_change_consistent q w w' :
  is_mapping_change q = true →
  serve_request q w = Done (tt, w') →
  consistent w →
  consistent w' ∧ state w = state_ready ∧ next_fsm w' = next_fsm w
  ∧ (flushes_of_allocated_syncers w → flushes_of_allocated_syncers w').
Proof.
  intros Hq H (Hld & t & d & Ht & Hd & Hr & Hf & Hp).
  destruct w as [st fd0 idx ds lk sy sr nf ng ld cl]; cbn in Hld, Ht, Hd; subst.
  assert (∃ b o c,
    serve_request q
      (mk_world st fd0 (Some (in_memory_index_t.replay (ds_entries d)))
         (Some d) lk sy sr nf ng None cl)
    = (assert_state state_ready;;
       with_index (λ t,
         modify (set_in_memory_index
                   (Some (in_memory_index_t.set_block_offset t b o)));;
         log c);;
       ds_add_entry b o)
      (mk_world st fd0 (Some (in_memory_index_t.replay (ds_entries d)))
         (Some d) lk sy sr nf ng None cl)) as (b & o & c & E).
  { destruct q as [|b o|b| |]; try done.
    - by exists b, o, (IndexSet b o).
    - by exists b, DELETE_BLOCK, (IndexDelete b). }
  rewrite E in H. clear E. revert H. mexec. mflat.
  destruct st; mexec; try done. intros [= <-]. mflat.
  split; [|split; [done|split; [done|]]].
  - split; [done|]. eexists _, _. split; [done|]. split; [done|]. cbn.
    rewrite replay_snoc, length_app. split; [done|]. split; [lia|].
    eapply Forall_impl; [done|]. cbn. lia.
  - intros Hfa d' n s [= <-] Hin. by eapply (Hfa d n s).
Qed.

Lemma mapping_changes_consistent qs w w' :
  forallb is_mapping_change qs = true →
  steps (act_request <$> qs) w = Done (tt, w') →
  consistent w →
  consistent w' ∧ next_fsm w' = next_fsm w
  ∧ (flushes_of_allocated_syncers w → flushes_of_allocated_syncers w').
Proof.
  revert w. induction qs as [|q qs IH]; intros w Hqs H Hc.
  - by injection H as <-.
  - cbn [forallb] in Hqs. apply andb_true_iff in Hqs as [Hq Hqs].
    rewrite fmap_cons in H. cbn [steps step] in H.
    apply bind_Done in H as ([] & w1 & H1 & H2).
    apply mapping_change_consistent in H1 as (Hc1 & _ & Hn1 & Hf1); [|done..].
    apply IH in H2 as (Hc2 & Hn2 & Hf2); [|done..].
    split; [done|]. split; [congruence|]. auto.
Qed.

(** What recovery rebuilds from a directory: the replay of the durable part
    of its log. *)
Lemma recovered_index_durable w d :
  disk_structure w = Some d →
  recovered_index w = Some (in_memory_index_t.replay (ds_durable d)).
Proof.
  intros Hd. unfold recovered_index, prepare_metablock, ds_prepare_metablock,
    with_ds.
  rewrite bind_gets, Hd. unfold log. rewrite bind_modify, run_ret.
  unfold start_existing, lba_start_fsm_t.create, lba_start_fsm_t.run,
    lba_start_fsm_t.set_callback, lba_start_fsm_t.finish,
    lba_start_fsm_t.destroy, lba_start_fsm_t.this, lba_list_t_new.
  by mexec.
Qed.

Lemma recovered_index_flushed w t d :
  in_memory_index w = Some t → disk_structure w = Some d →
  in_memory_index_t.replay (ds_entries d) = t →
  ds_flushed d = length (ds_entries d) →
  recovered_index w = in_memory_index w.
Proof.
  intros Ht Hd Hr Hf. rewrite (recovered_index_durable w d Hd), Ht.
  unfold ds_durable. by rewrite Hf, firstn_all, Hr.
Qed.

(** ** The end of a sync *)

Lemma syncer_finish_Done s w b w' :
  lba_syncer_t.finish s w = Done (b, w') →
  ∃ cb, syncers w !! s = Some cb
    ∧ syncers w' = delete s (syncers w)
    ∧ disk_structure w' = disk_structure w
    ∧ (∀ c, cb = Some c → last (calls w') = Some (OnLbaSync c)).
Proof.
  destruct w as [st fd0 idx ds lk sy sr nf ng ld cl].
  unfold lba_syncer_t.finish, lba_syncer_t.destroy, lba_syncer_t.callback,
    lock_unlock.
  mexec. mflat. destruct (rwi_lock_t.unlock lk) as [l'|]; mexec; [|done].
  destruct (sy !! s) as [cb|] eqn:E; mexec; [|done].
  destruct cb as [c|]; mexec; rewrite E; mexec; intros [= _ <-]; mflat;
    eexists; (split; [done|]); (split; [done|]); (split; [done|]);
    intros c' [=]; subst. apply last_snoc.
Qed.

Lemma deliver_completes_syncer e w w' s cbs :
  sync_in_progress s w →
  syncers w !! s = Some cbs →
  deliver e w = Done (tt, w') →
  syncers w' !! s = None →
  ∃ d, disk_structure w' = Some d
    ∧ ds_flushed d = length (ds_entries d)
    ∧ (∀ c, cbs = Some c → last (calls w') = Some (OnLbaSync c)).
Proof.
  intros [(Hld & t & d & Ht & Hd & Hr & Hf & Hp) Hc] Hs H Hs'.
  destruct e as [i io|i|]; unfold deliver in H.
  - unfold deliver_lock_available in H. rewrite bind_gets in H.
    destruct (lk_granted (disk_structure_lock w) !! i) as [[[s'|]|]|];
      [| |done|done]; rewrite bind_modify in H.
    + unfold lba_syncer_t.on_lock_available, lba_syncer_t.do_write in H.
      apply bind_Done in H as (b & w1 & H & [= <-]).
      apply bind_Done in H as (done & w2 & H1 & H2).
      assert (disk_structure w2
              = Some (if done then
                        mk_ds (ds_gen d) (ds_entries d) (length (ds_entries d))
                              (ds_pending d)
                      else
                        mk_ds (ds_gen d) (ds_entries d) (ds_flushed d)
                              (ds_pending d ++ [(length (ds_entries d), cl_syncer s')]))
              ∧ syncers w2 = syncers w) as [Hd2 Hs2].
      { revert H1. unfold ds_sync, with_ds. rewrite bind_gets.
        destruct w; cbn in Hd |- *. subst. unfold log. rewrite bind_modify.
        destruct io; rewrite bind_modify, run_ret; by intros [= <- <-]. }
      destruct done.
      * apply syncer_finish_Done in H2 as (cb & E1 & E2 & E3 & E4).
        rewrite Hs2 in E1, E2.
        destruct (decide (s' = s)) as [->|Hne];
          [|by rewrite E2, lookup_delete_ne, Hs in Hs'].
        assert (cb = cbs) as -> by congruence.
        eexists. split; [by rewrite E3, Hd2|]. done.
      * injection H2 as <-. congruence.
    + apply do_replace_keeps_syncers in H as [E _].
      destruct w; cbn in E, Hs. congruence.
  - unfold deliver_sync_done in H. rewrite bind_gets, Hd in H.
    destruct (ds_pending d !! i) as [[n c]|] eqn:Hi; [|done].
    rewrite bind_modify in H. destruct c as [s'|].
    + unfold lba_syncer_t.on_sync_lba in H.
      apply bind_Done in H as (b & w1 & H & [= <-]).
      apply syncer_finish_Done in H as (cb & E1 & E2 & E3 & E4).
      destruct w; cbn in Hs, Hd, E1, E2, E3. subst.
      destruct (decide (s' = s)) as [->|Hne];
        [|by rewrite E2, lookup_delete_ne, Hs in Hs'].
      assert (cb = cbs) as -> by congruence.
      eexists. split; [by rewrite E3|]. cbn. split; [|done].
      assert (n = length (ds_entries d)) as ->; [|lia].
      eapply Hc; [done|]. by eapply list_elem_of_lookup_2.
    + unfold gc_fsm_t.on_sync_lba, gc_fsm_t.do_cleanup, lock_unlock in H.
      rewrite bind_gets in H.
      destruct (rwi_lock_t.unlock _) as [l'|]; [|done].
      rewrite bind_modify in H. injection H as <-.
      destruct w; cbn in Hs, Hs'. congruence.
  - unfold deliver_load_done in H. by rewrite bind_gets, Hld in H.
Qed.

(** The callbacks only ever delete syncers. *)
Lemma deliver_syncers e w w' :
  deliver e w = Done (tt, w') →
  syncers w' = syncers w ∨ ∃ s', syncers w' = delete s' (syncers w).
Proof.
  intros H. destruct e as [i io|i|]; unfold deliver in H.
  - unfold deliver_lock_available in H. rewrite bind_gets in H.
    destruct (lk_granted (disk_structure_lock w) !! i) as [[[s'|]|]|];
      [| |done|done]; rewrite bind_modify in H.
    + unfold lba_syncer_t.on_lock_available, lba_syncer_t.do_write in H.
      apply bind_Done in H as (b & w1 & H & [= <-]).
      apply bind_Done in H as (done & w2 & H1 & H2).
      assert (syncers w2 = syncers w) as Hs2.
      { apply (frame_ds_sync (λ v, syncers v = syncers w)) in H1;
          [done|by intros []..|by destruct w]. }
      destruct done.
      * apply syncer_finish_Done in H2 as (cb & _ & E2 & _).
        right. exists s'. by rewrite E2, Hs2.
      * injection H2 as _ <-. by left.
    + apply do_replace_keeps_syncers in H as [E _]. left. by destruct w.
  - unfold deliver_sync_done in H. rewrite bind_gets in H.
    destruct (disk_structure w) as [d|]; [|done].
    destruct (ds_pending d !! i) as [[n c]|] eqn:Hi; [|done].
    rewrite bind_modify in H. destruct c as [s'|].
    + unfold lba_syncer_t.on_sync_lba in H.
      apply bind_Done in H as (b & w1 & H & [= <-]).
      apply syncer_finish_Done in H as (cb & _ & E2 & _).
      right. exists s'. by destruct w.
    + unfold gc_fsm_t.on_sync_lba, gc_fsm_t.do_cleanup in H.
      apply (frame_lock_unlock (λ v, syncers v = syncers w)) in H;
        [by left|by intros []..|by destruct w].
  - left. destruct w as [st fd0 idx ds lk sy sr nf ng ld cl]. revert H.
    unfold deliver_load_done, lba_start_fsm_t.on_load_lba,
      lba_start_fsm_t.finish, lba_start_fsm_t.destroy, lba_start_fsm_t.this.
    mexec. mflat. destruct ld as [[mb s']|]; mexec; [|done].
    destruct (sr !! s') as [o|] eqn:E; mexec; [|done].
    destruct (fsm_callback o); mexec; rewrite E; mexec;
      destruct (start_fsm_state_eqb (fsm_state o) state_start
                || start_fsm_state_eqb (fsm_state o) state_done);
      mexec; try done; by intros [= <-].
Qed.

Lemma deliver_all_syncers es w w' s x :
  deliver_all es w = Done (tt, w') →
  syncers w' !! s = Some x → syncers w !! s = Some x.
Proof.
  revert w. induction es as [|e es IH]; intros w H Hs.
  - by injection H as <-.
  - cbn [deliver_all] in H. apply bind_Done in H as ([] & w1 & H1 & H2).
    specialize (IH w1 H2 Hs).
    apply deliver_syncers in H1 as [E|[s' E]]; rewrite E in IH; [done|].
    by apply lookup_delete_Some in IH as [_ ?].
Qed.

Lemma deliver_all_keeps es w w' :
  loading w = None →
  deliver_all es w = Done (tt, w') →
  in_memory_index w' = in_memory_index w.
Proof.
  revert w. induction es as [|e es IH]; intros w Hld H.
  - by injection H as <-.
  - cbn [deliver_all] in H. apply bind_Done in H as ([] & w1 & H1 & H2).
    apply deliver_keeps in H1 as (E1 & E2 & E3); [|done].
    rewrite <- E1. apply IH; [congruence|done].
Qed.

(** A [sync] is the optional compaction followed by a [sync] that starts
    none. *)
Lemma sync_Done_inv cb r io_gc io w ok w2 :
  sync cb r io_gc io w = Done (ok, w2) →
  state w = state_ready
  ∧ ∃ wg, (wg = w ∨ gc io_gc w = Done (tt, wg))
      ∧ sync cb 0%Z io_gc io wg = Done (ok, w2).
Proof.
  intros H. unfold sync in H.
  apply bind_Done in H as ([] & w0 & H0 & H).
  apply assert_state_Done in H0 as [Hst ->]. split; [done|].
  apply bind_Done in H as ([] & wg & Hg & H).
  assert (state wg = state_ready ∧ (wg = w ∨ gc io_gc w = Done (tt, wg)))
    as [Hstg Hwg].
  { destruct (r `rem` 5 =? 1)%Z.
    - pose proof (keeps_index_gc _ _ _ _ Hg) as (_ & E & _).
      split; [congruence|by right].
    - injection Hg as <-. split; [done|by left]. }
  exists wg. split; [done|]. unfold sync.
  rewrite (bind_Done_eq _ _ _ _ _ (assert_state_ok _ _ Hstg)).
  change (0 `rem` 5 =? 1)%Z with false. cbv iota. by rewrite bind_ret.
Qed.

(** X10: durability.  Start from a directory whose table agrees with its
    log (as creation and recovery leave it), make any sequence of
    [set_block_offset] and [delete_block] calls, then call [sync].  When
    [sync] returns [true], and otherwise at the end of the event in which the
    syncer of this call completes and calls the caller's callback (whatever
    other callbacks, of syncs and of compactions, ran in between, as long as
    no mapping was changed meanwhile), recovery from the anchor of the
    current disk structure rebuilds exactly the table that was in memory when
    [sync] was called. *)
Theorem sync_makes_changes_durable w qs cb r io_gc io w1 ok w2 :
  consistent w →
  flushes_of_allocated_syncers w →
  forallb is_mapping_change qs = true →
  steps (act_request <$> qs) w = Done (tt, w1) →
  sync cb r io_gc io w1 = Done (ok, w2) →
  let s := next_fsm w1 in
  if ok then recovered_index w2 = in_memory_index w1
  else
    syncers w2 !! s = Some cb
    ∧ ∀ es e w3 w4,
        deliver_all es w2 = Done (tt, w3) →
        is_Some (syncers w3 !! s) →
        deliver e w3 = Done (tt, w4) →
        syncers w4 !! s = None →
        recovered_index w4 = in_memory_index w1
        ∧ ∀ c, cb = Some c → last (calls w4) = Some (OnLbaSync c).
Proof.
  intros Hc Hfa Hqs Hsteps Hsync s.
  apply mapping_changes_consistent in Hsteps as (Hc1 & Hn1 & Hfa1); [|done..].
  specialize (Hfa1 Hfa).
  pose proof Hsync as Hsync0.
  apply sync_Done_inv in Hsync as (Hst & wg & Hwg & Hsync).
  assert (no_flush_of s w1) as Hno1.
  { intros d n Hd Hin. specialize (Hfa1 d n s Hd Hin). subst s. lia. }
  assert (consistent wg ∧ no_flush_of s wg ∧ next_fsm wg = next_fsm w1
          ∧ in_memory_index wg = in_memory_index w1
          ∧ state wg = state_ready) as (Hcg & Hnog & Hng & Hig & Hsg).
  { destruct Hwg as [->|Hg]; [done|].
    pose proof (gc_consistent s io_gc _ _ _ (conj Hc1 Hno1) Hg) as [? ?].
    pose proof (gc_keeps_syncers _ _ _ Hg) as [_ ?].
    pose proof (keeps_index_gc _ _ _ _ Hg) as (? & ? & _).
    split; [done|]. split; [done|]. split; [done|]. split; congruence. }
  pose proof (keeps_index_sync _ _ _ _ _ _ _ Hsync) as (Hi2 & _ & Hl2).
  destruct Hcg as (Hld & t & d & Ht & Hd & Hr & Hf & Hp).
  destruct (sync_without_gc wg d cb 0%Z io_gc io Hsg Hd eq_refl)
    as (w' & E & _ & _ & Hcases).
  rewrite E in Hsync. injection Hsync as <- <-.
  fold s in Hng. rewrite Hng in Hcases.
  assert (in_memory_index w' = in_memory_index w1) as Hi' by congruence.
  assert (∀ pe,
    (pe = ds_pending d ∨ pe = ds_pending d ++ [(length (ds_entries d), cl_syncer s)]) →
    disk_structure w' = Some (mk_ds (ds_gen d) (ds_entries d) (ds_flushed d) pe) →
    sync_in_progress s w') as Hprog.
  { intros pe Hpe Hd'. split.
    - split; [congruence|]. exists t. eexists. split; [congruence|].
      split; [done|]. cbn. split; [done|]. split; [done|].
      destruct Hpe as [->| ->]; [done|].
      apply Forall_app. split; [done|]. by apply Forall_singleton.
    - intros d' n Hd'' Hin. rewrite Hd' in Hd''. injection Hd'' as <-.
      cbn in Hin |- *. destruct Hpe as [->| ->]; [by destruct (Hnog d n Hd)|].
      apply elem_of_app in Hin as [Hin|Hin]; [by destruct (Hnog d n Hd)|].
      apply list_elem_of_singleton in Hin. congruence. }
  assert (sync_in_progress s w' ∧ syncers w' !! s = Some cb →
    ∀ es e w3 w4,
      deliver_all es w' = Done (tt, w3) →
      is_Some (syncers w3 !! s) →
      deliver e w3 = Done (tt, w4) →
      syncers w4 !! s = None →
      recovered_index w4 = in_memory_index w1
      ∧ ∀ c, cb = Some c → last (calls w4) = Some (OnLbaSync c)) as Hlater.
  { intros [Hp2 Hs2] es e w3 w4 Hes [x Hx] He Hs4.
    pose proof (deliver_all_sync_in_progress s es _ _ _ Hp2 Hes) as Hp3.
    pose proof (deliver_all_syncers _ _ _ _ _ Hes Hx) as Hx2.
    assert (x = cb) as -> by congruence.
    pose proof (deliver_completes_syncer _ _ _ _ _ Hp3 Hx He Hs4)
      as (d4 & Hd4 & Hf4 & Hcb).
    pose proof (deliver_sync_in_progress s e _ _ _ Hp3 He)
      as [(_ & t4 & d4' & Ht4 & Hd4' & Hr4 & _) _].
    assert (d4' = d4) as -> by congruence.
    split; [|done].
    rewrite (recovered_index_flushed w4 t4 d4) by done.
    destruct Hp2 as [[Hld2 _] _]. destruct Hp3 as [[Hld3 _] _].
    apply deliver_keeps in He as (-> & _); [|done].
    apply deliver_all_keeps in Hes as ->; done. }
  destruct (negb (lk_writer (disk_structure_lock wg))
            && (length (lk_queue (disk_structure_lock wg)) =? 0)), io;
    cbn [andb]; destruct Hcases as (_ & Hd' & _ & Hs').
  - rewrite <- Hi'.
    apply (recovered_index_flushed w' t _ ltac:(congruence) Hd' Hr eq_refl).
  - split; [by rewrite Hs', lookup_insert_eq|]. apply Hlater.
    split; [eapply Hprog; [|done]; by right|by rewrite Hs', lookup_insert_eq].
  - split; [by rewrite Hs', lookup_insert_eq|]. apply Hlater.
    split; [|by rewrite Hs', lookup_insert_eq].
    eapply (Hprog (ds_pending d)); [by left|]. by destruct d.
  - split; [by rewrite Hs', lookup_insert_eq|]. apply Hlater.
    split; [|by rewrite Hs', lookup_insert_eq].
    eapply (Hprog (ds_pending d)); [by left|]. by destruct d.
Qed.

Lemma sync_makes_changes_durable_witness :
  let w := mk_world state_ready 3%Z (Some []) (Some (mk_ds 0 [] 0 []))
             rwi_lock_t.unlocked ∅ ∅ 0 1 None [IndexCreate; DsCreate 0] in
  let qs := [req_set_block_offset 0 100%Z; req_set_block_offset 2 50%Z;
             req_delete_block 2] in
  ∃ w1 w2 w3 w4,
    start 3%Z lba_list_t_new = Done (tt, w)
    ∧ steps (act_request <$> qs) w = Done (tt, w1)
    ∧ in_memory_index w1 = Some [100%Z; DELETE_BLOCK; DELETE_BLOCK]
    ∧ sync (Some 9) 1%Z false false w1 = Done (false, w2)
    ∧ deliver_all [ev_sync_done 0] w2 = Done (tt, w3)
    ∧ deliver (ev_sync_done 0) w3 = Done (tt, w4)
    ∧ recovered_index w4 = Some [100%Z; DELETE_BLOCK; DELETE_BLOCK]
    ∧ last (calls w4) = Some (OnLbaSync 9).
Proof.
  intros w qs.
  assert (consistent w) as Hc.
  { split; [reflexivity|]. exists [], (mk_ds 0 [] 0 []).
    repeat split; constructor. }
  assert (flushes_of_allocated_syncers w) as Hfa.
  { intros d n s [= <-] Hin. cbn in Hin. by apply not_elem_of_nil in Hin. }
  eassert (steps (act_request <$> qs) w = Done (tt, _)) as E1
    by (vm_compute; reflexivity).
  match type of E1 with
  | _ = Done (tt, ?w1) =>
      eassert (sync (Some 9) 1%Z false false w1 = Done (false, _)) as E2
        by (vm_compute; reflexivity)
  end.
  match type of E2 with
  | _ = Done (_, ?w2) =>
      eassert (deliver_all [ev_sync_done 0] w2 = Done (tt, _)) as E3
        by (vm_compute; reflexivity)
  end.
  match type of E3 with
  | _ = Done (_, ?w3) =>
      eassert (deliver (ev_sync_done 0) w3 = Done (tt, _)) as E4
        by (vm_compute; reflexivity)
  end.
  pose proof (sync_makes_changes_durable w qs (Some 9) 1%Z false false _ _ _
                Hc Hfa eq_refl E1 E2) as [_ H].
  specialize (H _ _ _ _ E3 ltac:(vm_compute; eauto) E4 ltac:(vm_compute; reflexivity))
    as [H1 H2].
  eexists _, _, _, _. split; [vm_compute; reflexivity|].
  split; [exact E1|]. split; [vm_compute; reflexivity|]. split; [exact E2|].
  split; [exact E3|]. split; [exact E4|]. split; [exact H1|exact (H2 9 eq_refl)].
Defined.

(** ** The table and the log agree *)

Lemma consistent_no_flush w :
  consistent w → ∃ s, sync_in_progress s w.
Proof.
  intros Hc. pose proof Hc as (_ & t & d & _ & Hd & _).
  pose (ids := omap (λ p : nat * sync_client,
                       match p.2 with cl_syncer s => Some s | cl_gc => None end)
                    (ds_pending d)).
  exists (fresh ids). split; [done|].
  intros d' n Hd' Hin. assert (d' = d) as -> by congruence.
  destruct (infinite_is_fresh ids). apply list_elem_of_omap.
  by exists (n, cl_syncer (fresh ids)).
Qed.

Lemma deliver_consistent e : preserves consistent (deliver e).
Proof.
  intros w a w' Hc H. apply consistent_no_flush in Hc as [s Hs].
  by apply (deliver_sync_in_progress s e _ _ _ Hs H).
Qed.

Lemma consistent_sync_all w d c io :
  True → consistent w → disk_structure w = Some d →
  consistent
    (set_disk_structure
       (Some (if io : bool then
                mk_ds (ds_gen d) (ds_entries d) (length (ds_entries d))
                      (ds_pending d)
              else
                mk_ds (ds_gen d) (ds_entries d) (ds_flushed d)
                      (ds_pending d ++ [(length (ds_entries d), c)])))
       (record (DsSync (ds_gen d) c io) w)).
Proof. intros _. apply consistent_sync. Qed.

Lemma consistent_replace w w1 :
  consistent w → replace_and_copy w = Done (tt, w1) → consistent w1.
Proof.
  intros [Hld _] H. by apply replace_and_copy_consistent in H as [? _].
Qed.

Lemma sync_consistent cb r io_gc io :
  preserves consistent (sync cb r io_gc io).
Proof.
  assert (∀ w c, consistent w → consistent (record c w)) as Hlog.
  { intros w c. by apply consistent_fields. }
  assert (∀ w l, consistent w → consistent (set_disk_structure_lock l w))
    as Hlock.
  { intros w l. by apply consistent_fields. }
  assert (∀ w m, consistent w → consistent (set_syncers m w)) as Hsy.
  { intros w m. by apply consistent_fields. }
  assert (∀ s cb', preserves consistent (lba_syncer_t.set_callback s cb'))
    as Hset.
  { intros s cb'. unfold lba_syncer_t.set_callback, lba_syncer_t.callback.
    apply preserves_bind; [|intros _; apply preserves_modify; intros w; apply Hsy].
    apply preserves_bind; [apply preserves_gets|intros m].
    destruct (m !! s); [apply preserves_ret|apply preserves_abort]. }
  unfold sync.
  apply preserves_bind; [|intros _].
  { unfold assert_state. apply preserves_bind; [apply preserves_gets|intros ?].
    apply preserves_assertion. }
  apply preserves_bind; [|intros _].
  { destruct (r `rem` 5 =? 1)%Z; [|apply preserves_ret].
    apply (preserves_gc consistent (λ _, True)); try done.
    - apply consistent_sync_all.
    - apply consistent_replace. }
  apply preserves_bind; [|intros s].
  { unfold lba_syncer_t.create.
    apply preserves_bind; [apply preserves_gets|intros n].
    apply preserves_bind;
      [apply preserves_modify; intros w; by apply consistent_fields|intros _].
    apply preserves_bind; [|intros _; apply preserves_ret].
    apply preserves_modify. intros w. apply Hsy. }
  unfold lba_syncer_t.run, lba_syncer_t.do_acquire_lock.
  apply preserves_bind; [apply Hset|intros _].
  apply preserves_bind; [|intros ok; destruct ok; [apply preserves_ret|]].
  - apply preserves_bind; [by apply preserves_lock_lock|intros ok].
    destruct ok; [|apply preserves_ret].
    apply (preserves_syncer_do_write consistent (λ _, True)); try done.
    apply consistent_sync_all.
  - apply preserves_bind; [apply Hset|intros _; apply preserves_ret].
Qed.

Lemma gc_consistent_alone io : preserves consistent (gc io).
Proof.
  apply (preserves_gc consistent (λ _, True)); try done.
  - apply consistent_sync_all.
  - apply consistent_replace.
Qed.

(** X9: the table and the log agree at all times.  Creation and recovery
    leave a directory whose table is the replay of the log of its disk
    structure, and every later step keeps it so: [set_block_offset] and
    [delete_block] (which change both), [sync], a compaction (whose new log
    is the copy of the table) and every callback.  Only [gen_block_id], which
    reserves an id without writing it, is not covered. *)
Theorem table_and_log_agree :
  (∀ fd w w', loading w = None → start fd w = Done (tt, w') →
     consistent w' ∧ in_memory_index w' = Some [])
  ∧ (∀ fd mb cb w w', loading w = None →
       start_existing fd mb cb true w = Done (true, w') →
       consistent w'
       ∧ in_memory_index w' = Some (in_memory_index_t.replay (mb_log mb)))
  ∧ (∀ fd mb cb w w1 w2, loading w = None →
       start_existing fd mb cb false w = Done (false, w1) →
       deliver ev_load_done w1 = Done (tt, w2) →
       consistent w2
       ∧ in_memory_index w2 = Some (in_memory_index_t.replay (mb_log mb)))
  ∧ (∀ a w w', consistent w → a ≠ act_request req_gen_block_id →
       step a w = Done (tt, w') → consistent w').
Proof.
  split; [|split; [|split]].
  - intros fd w w' Hld H.
    destruct w as [st fd0 idx ds lk sy sr nf ng ld cl]; cbn in Hld; subst.
    revert H. unfold start. mexec. mflat. destruct st; mexec; try done.
    intros [= <-]. split; [|done]. split; [done|].
    eexists _, _. repeat split; cbn; constructor.
  - intros fd mb cb w w' Hld H.
    destruct w as [st fd0 idx ds lk sy sr nf ng ld cl]; cbn in Hld; subst.
    revert H.
    unfold start_existing, lba_start_fsm_t.create, lba_start_fsm_t.run,
      lba_start_fsm_t.set_callback, lba_start_fsm_t.finish,
      lba_start_fsm_t.destroy, lba_start_fsm_t.this.
    mexec. mflat. destruct st; mexec; try done.
    intros [= <-]. split; [|done]. split; [done|].
    eexists _, _. repeat split; cbn; [lia|constructor].
  - intros fd mb cb w w1 w2 Hld H1 H2.
    destruct w as [st fd0 idx ds lk sy sr nf ng ld cl]; cbn in Hld; subst.
    revert H1.
    unfold start_existing, lba_start_fsm_t.create, lba_start_fsm_t.run,
      lba_start_fsm_t.set_callback, lba_start_fsm_t.this.
    mexec. mflat. destruct st; mexec; try done.
    intros [= <-]. revert H2.
    unfold deliver, deliver_load_done, lba_start_fsm_t.on_load_lba,
      lba_start_fsm_t.finish, lba_start_fsm_t.destroy, lba_start_fsm_t.this.
    mexec. mflat.
    destruct cb; mexec; intros [= <-]; (split; [|done]); (split; [done|]);
      eexists _, _; repeat split; cbn; first [lia|constructor].
  - intros a w w' Hc Ha H. destruct a as [q|e]; [|by eapply deliver_consistent].
    destruct q as [|b o|b|cb r io_gc io|io]; [done| | | |].
    + by eapply (mapping_change_consistent (req_set_block_offset b o)).
    + by eapply (mapping_change_consistent (req_delete_block b)).
    + cbn [step serve_request] in H.
      apply bind_Done in H as (ok & w1 & H & [= <-]).
      by eapply sync_consistent.
    + by eapply gc_consistent_alone.
Qed.

Lemma table_and_log_agree_witness :
  let mb := mk_mb [(0, 100%Z); (2, 7%Z); (0, DELETE_BLOCK)] in
  ∃ w1 w2 w3 w4 w5 w6 w7,
    start 3%Z lba_list_t_new = Done (tt, w1)
    ∧ step (act_request (req_set_block_offset 1 40%Z)) w1 = Done (tt, w2)
    ∧ step (act_request (req_gc false)) w2 = Done (tt, w3)
    ∧ step (act_event (ev_sync_done 0)) w3 = Done (tt, w4)
    ∧ start_existing 3%Z mb (Some 9) true lba_list_t_new = Done (true, w5)
    ∧ start_existing 3%Z mb (Some 9) false lba_list_t_new = Done (false, w6)
    ∧ deliver ev_load_done w6 = Done (tt, w7)
    ∧ consistent w1 ∧ consistent w2 ∧ consistent w3 ∧ consistent w4
    ∧ consistent w5 ∧ consistent w7.
Proof.
  intros mb.
  destruct table_and_log_agree as (Hnew & Hsync & Hasync & Hstep).
  eassert (start 3%Z lba_list_t_new = Done (tt, _)) as E1
    by (vm_compute; reflexivity).
  match type of E1 with
  | _ = Done (_, ?w1) =>
      eassert (step (act_request (req_set_block_offset 1 40%Z)) w1
               = Done (tt, _)) as E2 by (vm_compute; reflexivity)
  end.
  match type of E2 with
  | _ = Done (_, ?w2) =>
      eassert (step (act_request (req_gc false)) w2 = Done (tt, _)) as E3
        by (vm_compute; reflexivity)
  end.
  match type of E3 with
  | _ = Done (_, ?w3) =>
      eassert (step (act_event (ev_sync_done 0)) w3 = Done (tt, _)) as E4
        by (vm_compute; reflexivity)
  end.
  eassert (start_existing 3%Z mb (Some 9) true lba_list_t_new
           = Done (true, _)) as E5 by (vm_compute; reflexivity).
  eassert (start_existing 3%Z mb (Some 9) false lba_list_t_new
           = Done (false, _)) as E6 by (vm_compute; reflexivity).
  match type of E6 with
  | _ = Done (_, ?w6) =>
      eassert (deliver ev_load_done w6 = Done (tt, _)) as E7
        by (vm_compute; reflexivity)
  end.
  pose proof (Hnew 3%Z lba_list_t_new _ eq_refl E1) as [C1 _].
  pose proof (Hstep (act_request (req_set_block_offset 1 40%Z)) _ _ C1
                ltac:(discriminate) E2) as C2.
  pose proof (Hstep (act_request (req_gc false)) _ _ C2
                ltac:(discriminate) E3) as C3.
  pose proof (Hstep (act_event (ev_sync_done 0)) _ _ C3
                ltac:(discriminate) E4) as C4.
  pose proof (Hsync 3%Z mb (Some 9) lba_list_t_new _ eq_refl E5) as [C5 _].
  pose proof (Hasync 3%Z mb (Some 9) lba_list_t_new _ _ eq_refl E6 E7)
    as [C7 _].
  eexists _, _, _, _, _, _, _.
  split; [exact E1|]. split; [exact E2|]. split; [exact E3|].
  split; [exact E4|]. split; [exact E5|]. split; [exact E6|].
  split; [exact E7|]. split; [exact C1|]. split; [exact C2|].
  split; [exact C3|]. split; [exact C4|]. split; [exact C5|exact C7].
Defined.

(** ** The replace step carries every update over *)

(** Properties of the table and the log that the start of a syncer keeps. *)
Section sync_properties.
Variable P : world → Prop.
Hypothesis P_log : ∀ w c, P w → P (record c w).
Hypothesis P_lock : ∀ w l, P w → P (set_disk_structure_lock l w).
Hypothesis P_syncers : ∀ w m, P w → P (set_syncers m w).
Hypothesis P_fsm : ∀ w n, P w → P (set_next_fsm n w).
Hypothesis P_sync : ∀ w d c io, True → P w → disk_structure w = Some d →
  P (set_disk_structure
       (Some (if io : bool then
                mk_ds (ds_gen d) (ds_entries d) (length (ds_entries d))
                      (ds_pending d)
              else
                mk_ds (ds_gen d) (ds_entries d) (ds_flushed d)
                      (ds_pending d ++ [(length (ds_entries d), c)])))
       (record (DsSync (ds_gen d) c io) w)).



End sync_properties.








